(** * cadencefmt: the comment-preserving merge of [prettyCode]

    A shallow embedding of [src/main.go].  The program renders a Cadence
    source text with the external pretty printer, lexes both the original
    and the rendered text, and walks the two token streams in step in order
    to re-insert the comments and blank lines the renderer dropped.

    Go strings are byte strings; they are modelled by [string].  Go [int]
    values (offsets, lines, columns) are modelled by [Z].  A run-time panic
    (slice or index out of range, negative repeat count) is modelled by
    [None]. *)

From Stdlib Require Import String Ascii List ZArith Lia Bool.
Import ListNotations.

Local Open Scope string_scope.
Local Open Scope Z_scope.

(** Sequencing of steps that may panic: the first panic ends the run. *)
Notation "x <- a ;; b" :=
  (match a with None => None | Some x => b end)
  (at level 60, a at next level, right associativity).

Notation "' p <- a ;; b" :=
  (match a with None => None | Some p => b end)
  (at level 60, p pattern, a at next level, right associativity).

(** ** The functions of Go's [strings] package that the program calls *)

Module strings.

Definition newline : ascii := "010"%char.
Definition tab : ascii := "009"%char.

Definition nl : string := String newline "".

(** [len(s)] *)
Definition len (s : string) : Z := Z.of_nat (String.length s).

Fixpoint take (n : nat) (s : string) : string :=
  match n, s with
  | S n', String a r => String a (take n' r)
  | _, _ => ""
  end.

Fixpoint drop (n : nat) (s : string) : string :=
  match n, s with
  | S n', String _ r => drop n' r
  | _, _ => s
  end.

(** [s[lo:hi]]; out of range panics. *)
Definition slice (s : string) (lo hi : Z) : option string :=
  if (0 <=? lo) && (lo <=? hi) && (hi <=? len s)
  then Some (take (Z.to_nat (hi - lo)) (drop (Z.to_nat lo) s))
  else None.

(** [xs[i]] on a slice of strings; out of range panics. *)
Definition index (xs : list string) (i : Z) : option string :=
  if 0 <=? i then nth_error xs (Z.to_nat i) else None.

(** [strings.Repeat(s, count)]; a negative count panics. *)
Fixpoint repeat (s : string) (n : nat) : string :=
  match n with
  | O => ""
  | S n' => s ++ repeat s n'
  end.

Definition Repeat (s : string) (count : Z) : option string :=
  if 0 <=? count then Some (repeat s (Z.to_nat count)) else None.

(** [strings.HasPrefix(s, prefix)] *)
Definition HasPrefix (s p : string) : bool := String.prefix p s.

(** [strings.HasSuffix(s, suffix)] *)
Definition HasSuffix (s suffix : string) : bool :=
  (String.length suffix <=? String.length s)%nat
  && String.eqb (drop (String.length s - String.length suffix) s) suffix.

(** [strings.Split(s, sep)] for a one-byte separator. *)
Fixpoint Split (s : string) (sep : ascii) : list string :=
  match s with
  | "" => [""]
  | String a r =>
      if Ascii.eqb a sep then "" :: Split r sep
      else match Split r sep with
           | h :: t => String a h :: t
           | [] => [String a ""]
           end
  end.

(** [strings.SplitAfter(s, sep)] for a one-byte separator. *)
Fixpoint SplitAfter (s : string) (sep : ascii) : list string :=
  match s with
  | "" => [""]
  | String a r =>
      if Ascii.eqb a sep then String a "" :: SplitAfter r sep
      else match SplitAfter r sep with
           | h :: t => String a h :: t
           | [] => [String a ""]
           end
  end.

(** [strings.Join(elems, sep)] *)
Fixpoint Join (elems : list string) (sep : string) : string :=
  match elems with
  | [] => ""
  | [e] => e
  | e :: rest => e ++ sep ++ Join rest sep
  end.

Fixpoint inCutset (c : ascii) (cutset : string) : bool :=
  match cutset with
  | "" => false
  | String a r => Ascii.eqb a c || inCutset c r
  end.

(** [strings.TrimLeft(s, cutset)] *)
Fixpoint TrimLeft (s cutset : string) : string :=
  match s with
  | "" => ""
  | String a r => if inCutset a cutset then TrimLeft r cutset else s
  end.

(** [strings.TrimRight(s, cutset)] *)
Fixpoint TrimRight (s cutset : string) : string :=
  match s with
  | "" => ""
  | String a r =>
      match TrimRight r cutset with
      | "" => if inCutset a cutset then "" else String a ""
      | r' => String a r'
      end
  end.

(** [strings.Trim(s, cutset)] *)
Definition Trim (s cutset : string) : string :=
  TrimRight (TrimLeft s cutset) cutset.

(** [strings.Replace(s, old, new, -1)] for a one-byte [old]. *)
Fixpoint Replace (s : string) (old : ascii) (new : string) : string :=
  match s with
  | "" => ""
  | String a r =>
      if Ascii.eqb a old then new ++ Replace r old new
      else String a (Replace r old new)
  end.

(** [strings.LastIndex(s, substr)] for a one-byte [substr]: the index of
    its last occurrence, or -1. *)
Fixpoint LastIndex (s : string) (c : ascii) : Z :=
  match s with
  | "" => -1
  | String a r =>
      let i := LastIndex r c in
      if 0 <=? i then i + 1
      else if Ascii.eqb a c then 0 else -1
  end.

End strings.

(** ** [indent.String] of goyang's [pkg/indent]

    Every line of [s] is prefixed by [indent]; [s] is returned unchanged
    when either argument is empty. *)

Module indent.

(** [lines[:len(lines)-1]] when the last of [lines] is empty. *)
Fixpoint dropLastEmpty (lines : list string) : list string :=
  match lines with
  | [] => []
  | [l] => if String.eqb l "" then [] else [l]
  | l :: rest => l :: dropLastEmpty rest
  end.

Definition String_ (indent s : string) : string :=
  if String.eqb indent "" || String.eqb s "" then s
  else
    let lines := dropLastEmpty (strings.SplitAfter s strings.newline) in
    strings.Join ("" :: lines) indent.

End indent.

(** ** Tokens of the Cadence lexer ([runtime/parser/lexer])

    The lexer is a dependency of the program and is not part of its source.
    The merge only compares token kinds and reads token ranges, so the
    token type is the record the program reads.  The kinds the program
    names are constructors; [TokenOther] stands for the remaining kinds of
    the lexer's enumeration, told apart by their number. *)

Module lexer.

Inductive TokenType : Set :=
  | TokenError
  | TokenEOF
  | TokenSpace
  | TokenIdentifier
  | TokenDecimalIntegerLiteral
  | TokenEqual
  | TokenColon
  | TokenComma
  | TokenSemicolon
  | TokenDot
  | TokenParenOpen
  | TokenParenClose
  | TokenBraceOpen
  | TokenBraceClose
  | TokenBracketOpen
  | TokenBracketClose
  | TokenLineComment
  | TokenBlockCommentStart
  | TokenBlockCommentEnd
  | TokenBlockCommentContent
  | TokenOther (tag : nat).

Definition TokenType_eq_dec (a b : TokenType) : {a = b} + {a <> b}.
Proof. decide equality; apply Nat.eq_dec. Defined.

Definition TokenType_eqb (a b : TokenType) : bool :=
  if TokenType_eq_dec a b then true else false.

(** [ast.Position]: byte offset, line (from 1) and column (from 0). *)
Record Position : Set := mkPosition { Offset : Z; Line : Z; Column : Z }.

(** [lexer.Token]: a kind ([Type] in the source) and an inclusive range. *)
Record Token : Set := mkToken { Type_ : TokenType; StartPos : Position; EndPos : Position }.

(** [token.Is(ty)] *)
Definition Is (t : Token) (ty : TokenType) : bool := TokenType_eqb (Type_ t) ty.

(** [token.StartPosition()] *)
Definition StartPosition (t : Token) : Position := StartPos t.

(** A [TokenStream] is modelled by the tokens that are not yet consumed,
    together with the position of the end of the input, at which [Next]
    makes its synthetic end-of-input token once the tokens are used up.
    [Cursor] returns the stream as it stands and [Revert] restores it. *)
Record TokenStream : Set := mkStream { pending : list Token; inputEnd : Position }.

Definition eofToken (s : TokenStream) : Token :=
  mkToken TokenEOF (inputEnd s) (inputEnd s).

Definition Next (s : TokenStream) : Token * TokenStream :=
  match pending s with
  | [] => (eofToken s, s)
  | t :: rest => (t, mkStream rest (inputEnd s))
  end.

Definition Cursor (s : TokenStream) : TokenStream := s.

Definition Revert (s cursor : TokenStream) : TokenStream := cursor.

(** *** A tokenizer for a fragment of the language

    Used to build the token streams of the worked examples.  It follows
    the lexer on the fragment it covers: a run of spaces, tabs, carriage
    returns and line feeds is one [TokenSpace]; a line comment runs from
    the two slashes to the end of the line, the line feed excluded; a block
    comment is a start token, content tokens and an end token, nested
    comments opening further start tokens; letters, digits and underscores
    form identifiers (keywords included) and decimal literals; brackets and
    a few punctuation bytes are tokens of their own; at any other byte
    lexing stops with a [TokenError].  The fragment has no string literals
    and no operators of several bytes; texts that hold them are outside
    it.  The end position of a token is the position of its last byte. *)

Definition advance (p : Position) (c : ascii) : Position :=
  if Ascii.eqb c strings.newline
  then mkPosition (Offset p + 1) (Line p + 1) 0
  else mkPosition (Offset p + 1) (Line p) (Column p + 1).

Fixpoint advanceBy (p : Position) (s : string) : Position :=
  match s with
  | "" => p
  | String a r => advanceBy (advance p a) r
  end.

(** The position of the last byte of [s], which starts at [p]. *)
Fixpoint lastPos (p : Position) (s : string) : Position :=
  match s with
  | "" => mkPosition (Offset p - 1) (Line p) (Column p)
  | String a "" => p
  | String a r => lastPos (advance p a) r
  end.

Definition emit (ty : TokenType) (p : Position) (s : string) : Token :=
  mkToken ty p (lastPos p s).

Fixpoint span (f : ascii -> bool) (s : string) : string * string :=
  match s with
  | "" => ("", "")
  | String a r =>
      if f a then let (x, y) := span f r in (String a x, y) else ("", s)
  end.

Definition isSpaceByte (c : ascii) : bool :=
  Ascii.eqb c " " || Ascii.eqb c strings.tab || Ascii.eqb c strings.newline
  || Ascii.eqb c "013".

Definition isDigit (c : ascii) : bool :=
  let n := nat_of_ascii c in ((48 <=? n) && (n <=? 57))%nat.

Definition isIdentByte (c : ascii) : bool :=
  let n := nat_of_ascii c in
  ((65 <=? n) && (n <=? 90) || (97 <=? n) && (n <=? 122) || (n =? 95) || isDigit c)%nat.

Definition punct (c : ascii) : TokenType :=
  if Ascii.eqb c "=" then TokenEqual
  else if Ascii.eqb c ":" then TokenColon
  else if Ascii.eqb c "," then TokenComma
  else if Ascii.eqb c ";" then TokenSemicolon
  else if Ascii.eqb c "." then TokenDot
  else if Ascii.eqb c "(" then TokenParenOpen
  else if Ascii.eqb c ")" then TokenParenClose
  else if Ascii.eqb c "{" then TokenBraceOpen
  else if Ascii.eqb c "}" then TokenBraceClose
  else if Ascii.eqb c "[" then TokenBracketOpen
  else if Ascii.eqb c "]" then TokenBracketClose
  else TokenError.

(** The content of a block comment up to the next [*/] or [/*]. *)
Fixpoint blockContent (s : string) : string * string :=
  match s with
  | "" => ("", "")
  | String "*" (String "/" _) => ("", s)
  | String "/" (String "*" _) => ("", s)
  | String a r => let (x, y) := blockContent r in (String a x, y)
  end.

Fixpoint lexFrom (fuel : nat) (nesting : nat) (s : string) (p : Position) : list Token :=
  match fuel with
  | O => []
  | S fuel' =>
      match nesting with
      | S n =>
          let (content, rest) := blockContent s in
          let p' := advanceBy p content in
          match rest with
          | String "*" (String "/" rest') =>
              emit TokenBlockCommentContent p content
                :: emit TokenBlockCommentEnd p' "*/"
                :: lexFrom fuel' n rest' (advanceBy p' "*/")
          | String "/" (String "*" rest') =>
              emit TokenBlockCommentContent p content
                :: emit TokenBlockCommentStart p' "/*"
                :: lexFrom fuel' (S nesting) rest' (advanceBy p' "/*")
          | _ => []
          end
      | O =>
          match s with
          | "" => []
          | String "/" (String "/" _) =>
              let (text, rest) := span (fun c => negb (Ascii.eqb c strings.newline)) s in
              emit TokenLineComment p text :: lexFrom fuel' 0 rest (advanceBy p text)
          | String "/" (String "*" rest) =>
              emit TokenBlockCommentStart p "/*" :: lexFrom fuel' 1 rest (advanceBy p "/*")
          | String a r =>
              if isSpaceByte a then
                let (text, rest) := span isSpaceByte s in
                emit TokenSpace p text :: lexFrom fuel' 0 rest (advanceBy p text)
              else if isDigit a then
                let (text, rest) := span isDigit s in
                emit TokenDecimalIntegerLiteral p text :: lexFrom fuel' 0 rest (advanceBy p text)
              else if isIdentByte a then
                let (text, rest) := span isIdentByte s in
                emit TokenIdentifier p text :: lexFrom fuel' 0 rest (advanceBy p text)
              else if TokenType_eqb (punct a) TokenError then
                [emit TokenError p (String a "")]
              else
                emit (punct a) p (String a "") :: lexFrom fuel' 0 r (advance p a)
          end
      end
  end.

Definition startOfInput : Position := mkPosition 0 1 0.

(** [lexer.Lex(input, nil)] on the fragment. *)
Definition Lex (input : string) : TokenStream :=
  mkStream (lexFrom (S (String.length input)) 0 input startOfInput)
           (lastPos startOfInput input).

End lexer.

(** [slices.Contains] of [golang.org/x/exp/slices] on token kinds. *)

Module slices.

Definition Contains (s : list lexer.TokenType) (v : lexer.TokenType) : bool :=
  existsb (fun x => lexer.TokenType_eqb x v) s.

End slices.

(** ** The program: [src/main.go] *)

Module main.

Import lexer.

(** What a run of the program ends in: the returned string, a run-time
    panic, or, for the loop run with a bounded number of iterations, that
    bound being reached. *)
Inductive Outcome : Set :=
  | Returned (s : string)
  | Panicked
  | OutOfFuel.

(** [extractTokenText]: [text[token.StartPos.Offset : token.EndPos.Offset+1]] *)
Definition extractTokenText (text : string) (token : Token) : option string :=
  strings.slice text (Offset (StartPos token)) (Offset (EndPos token) + 1).

Definition ignoredTokenTypes : list TokenType :=
  [TokenParenClose; TokenParenOpen; TokenBracketOpen; TokenBracketClose].

(** The variables of [prettyCode] that the loop updates. *)
Record State : Set := mkState {
  newTokens : TokenStream;
  oldTokens : TokenStream;
  newToken : Token;
  oldToken : Token;
  result : string;
  spaces : string;
  comment : string
}.

(** One pass through the body of the outer [for]: [continue] (or falling
    off the end of the body) with the updated variables, or [break]. *)
Inductive Flow : Set :=
  | Continue (st : State)
  | Break (st : State).

Definition cutset : string := String " " (String strings.tab "").

Section Loop.

(** The two texts: [existingCode], and the local variable [prettyCode] of
    the source, which holds the rendered text. *)
Variable existingCode : string.
Variable prettyText : string.

Definition existingCodeLines : list string := strings.Split existingCode strings.newline.

(** Lines 239-246: is the line comment [oldTok] a trailing one?  Also
    returns the trimmed text before it on its line. *)
Definition checkTrailing (oldTok : Token) : option (bool * string) :=
  line <- strings.index existingCodeLines (Line (StartPosition oldTok) - 1) ;;
  oldLine <- strings.slice line 0 (Column (StartPosition oldTok)) ;;
  let oldLine := strings.Trim oldLine cutset in
  Some (0 <? strings.len oldLine, oldLine).

(** Lines 248-256: the blank line put before a leading comment. *)
Definition checkPreviousLine (isTrailing : bool) (oldLine : string) (oldTok : Token)
    (spaces comment : string) : option string :=
  if negb isTrailing && (1 <? Line (StartPosition oldTok)) then
    prev <- strings.index existingCodeLines (Line (StartPosition oldTok) - 2) ;;
    if strings.len (strings.Trim prev cutset) =? 0 then
      if (strings.len oldLine =? 0)
         && negb (strings.HasSuffix (strings.Replace spaces " " "") (strings.nl ++ strings.nl))
      then Some (comment ++ strings.nl)
      else Some comment
    else Some comment
  else Some comment.

(** Lines 261-269: the blank line put after a leading comment. *)
Definition checkNextLine (isTrailing : bool) (oldLine : string) (oldTok : Token)
    (comment : string) : option string :=
  if negb isTrailing
     && (Line (StartPosition oldTok) <? Z.of_nat (List.length existingCodeLines)) then
    next <- strings.index existingCodeLines (Line (StartPosition oldTok)) ;;
    if strings.len (strings.Trim next cutset) =? 0 then
      if strings.len oldLine =? 0 then Some (comment ++ strings.nl) else Some comment
    else Some comment
  else Some comment.

(** Lines 238-279: a line comment of the old stream.  Returns the new
    [result] and [comment]. *)
Definition lineComment (oldTok : Token) (result spaces comment : string)
    : option (string * string) :=
  '(isTrailing, oldLine) <- checkTrailing oldTok ;;
  comment <- checkPreviousLine isTrailing oldLine oldTok spaces comment ;;
  text <- extractTokenText existingCode oldTok ;;
  let comment := comment ++ text in
  comment <- checkNextLine isTrailing oldLine oldTok comment ;;
  if isTrailing then Some (result ++ " " ++ comment, "")
  else Some (result, comment ++ strings.nl).

(** Lines 281-290: the content of a block comment of the old stream. *)
Definition blockComment (oldTok : Token) (comment : string) : option string :=
  commentString <- extractTokenText existingCode oldTok ;;
  let comment := comment ++ "/*" ++ commentString ++ "*/" in
  if Line (StartPos oldTok) <? Line (EndPos oldTok)
  then Some (comment ++ strings.nl ++ strings.nl)
  else Some comment.

(** Lines 235-293: what the inner loop does with the old token it pulled. *)
Definition checkComment (oldTok : Token) (result spaces comment : string)
    : option (string * string) :=
  if Is oldTok TokenLineComment then lineComment oldTok result spaces comment
  else if Is oldTok TokenBlockCommentContent then
    comment <- blockComment oldTok comment ;; Some (result, comment)
  else Some (result, comment).

(** Lines 231-298: the inner [for], by recursion on the old tokens still
    to come; with none left, [Next] gives the end-of-input token, on which
    the loop breaks.  Returns [oldToken], the old tokens left, [result] and
    [comment]. *)
Fixpoint resync (newTok : Token) (inputEnd : Position) (olds : list Token)
    (result spaces comment : string) : option (Token * list Token * string * string) :=
  match olds with
  | [] => Some (mkToken TokenEOF inputEnd inputEnd, [], result, comment)
  | oldTok :: rest =>
      '(result, comment) <- checkComment oldTok result spaces comment ;;
      if TokenType_eqb (Type_ oldTok) (Type_ newTok) || Is oldTok TokenEOF
      then Some (oldTok, rest, result, comment)
      else resync newTok inputEnd rest result spaces comment
  end.

(** Lines 307-324: the new token is written out, after the pending
    spacing and the pending comments. *)
Definition emitToken (newTok : Token) (result spaces comment : string) : option string :=
  let spacesString := spaces in
  let existingIndent :=
    strings.len spacesString - (strings.LastIndex spacesString strings.newline + 1) in
  let result := result ++ strings.TrimRight spacesString " " in
  result <-
    (if 0 <? strings.len comment then
       padding <- strings.Repeat " " (Column (StartPosition newTok)) ;;
       Some ((result ++ indent.String_ padding comment) ++ padding)
     else
       pad <- strings.Repeat " " existingIndent ;;
       Some (result ++ pad)) ;;
  text <- extractTokenText prettyText newTok ;;
  Some (result ++ text).

(** Lines 200-202: the new token the iteration works on, and the new
    stream after it. *)
Definition pull (st : State) : Token * TokenStream :=
  if negb (Is (newToken st) TokenEOF) then Next (newTokens st)
  else (newToken st, newTokens st).

(** Lines 199-325: the body of the outer [for]. *)
Definition step (st : State) : option Flow :=
  let (newTok, news) := pull st in
  if Is newTok TokenSpace then
    text <- extractTokenText prettyText newTok ;;
    Some (Continue (mkState news (oldTokens st) newTok (oldToken st)
                      (result st) (spaces st ++ text) (comment st)))
  else if Is newTok TokenBraceOpen then
    let cursor := Cursor news in
    let (lookahead, news') := Next news in
    if TokenType_eqb (Type_ lookahead) TokenBraceClose then
      Some (Continue (mkState news' (oldTokens st) newTok (oldToken st)
                        (result st ++ "{}") (spaces st) (comment st)))
    else
      Some (Continue (mkState (Revert news' cursor) (oldTokens st) newTok (oldToken st)
                        (result st ++ "{") (spaces st) (comment st)))
  else if slices.Contains ignoredTokenTypes (Type_ newTok) then
    text <- extractTokenText prettyText newTok ;;
    Some (Continue (mkState news (oldTokens st) newTok (oldToken st)
                      ((result st ++ spaces st) ++ text) "" (comment st)))
  else
    '(oldTok, olds, res, com) <-
      (if negb (Is (oldToken st) TokenEOF) then
         resync newTok (inputEnd (oldTokens st)) (pending (oldTokens st))
                (result st) (spaces st) (comment st)
       else Some (oldToken st, pending (oldTokens st), result st, comment st)) ;;
    let olds := mkStream olds (inputEnd (oldTokens st)) in
    if Is oldTok TokenEOF && Is newTok TokenEOF then
      Some (Break (mkState news olds newTok oldTok (res ++ com) (spaces st) com))
    else
      res <- emitToken newTok res (spaces st) com ;;
      Some (Continue (mkState news olds newTok oldTok res "" "")).

(** The outer [for], run for at most [fuel] iterations, and the [return]
    after it. *)
Fixpoint loop (fuel : nat) (st : State) : Outcome :=
  match fuel with
  | O => OutOfFuel
  | S fuel' =>
      match step st with
      | None => Panicked
      | Some (Break st') => Returned (result st')
      | Some (Continue st') => loop fuel' st'
      end
  end.

(** Lines 184-196: the variables as the loop finds them. *)
Definition initial (oldStream newStream : TokenStream) : State :=
  mkState newStream oldStream
          (mkToken TokenSpace (mkPosition 0 0 0) (mkPosition 0 0 0))
          (mkToken TokenSpace (mkPosition 0 0 0) (mkPosition 0 0 0))
          "" "" "".

(** Lines 184-328: the merge of the two token streams.  One iteration
    more than there are new tokens is enough (see [loop_terminates]). *)
Definition merge (oldStream newStream : TokenStream) : Outcome :=
  loop (S (List.length (pending newStream))) (initial oldStream newStream).

End Loop.

Section Program.

(** The collaborators: the lexer, the parser, whose error has the message
    [err.Error()], and the renderer [prettier.Prettier] applied to the
    document of the program. *)
Variable Lex : string -> TokenStream.
Variable Program : Type.
Variable ParseProgram : string -> Program + string.
Variable Prettier : Program -> Z -> string -> string.

(** [pretty], lines 39-48. *)
Definition pretty (code : string) (maxLineWidth : Z) : string :=
  match ParseProgram code with
  | inr err => err
  | inl program => Prettier program maxLineWidth "    "
  end.

(** [prettyCode], lines 174-329. *)
Definition prettyCode (existingCode : string) (maxLineLength : Z) : Outcome :=
  let oldTokens := Lex existingCode in
  let prettyText := pretty existingCode maxLineLength in
  if strings.HasPrefix prettyText "Parsing failed " then Returned prettyText
  else
    let newTokens := Lex prettyText in
    merge existingCode prettyText oldTokens newTokens.

End Program.

(** The merge of an original and a rendered text, both lexed by the
    tokenizer of the fragment. *)
Definition reconcile (original rendered : string) : Outcome :=
  merge original rendered (Lex original) (Lex rendered).

End main.

(** ** Notions the properties are stated with *)

Module props.

Import lexer main.

(** [sub] occurs in [s]. *)
Definition Substring (sub s : string) : Prop :=
  exists pre post, s = pre ++ sub ++ post.

(** The same, as a test ([strings.Contains]). *)
Fixpoint contains (s sub : string) : bool :=
  String.prefix sub s
  || match s with
     | "" => false
     | String _ r => contains r sub
     end.

Fixpoint allBytes (f : ascii -> bool) (s : string) : bool :=
  match s with
  | "" => true
  | String a r => f a && allBytes f r
  end.

(** A line of spaces and tabs only. *)
Definition blankLine (s : string) : bool :=
  allBytes (fun c => strings.inCutset c cutset) s.

(** A text without a line feed. *)
Definition oneLine (s : string) : bool :=
  allBytes (fun c => negb (Ascii.eqb c strings.newline)) s.

(** Whitespace as the renderer lays it out: spaces and line feeds. *)
Definition layoutOnly (s : string) : bool :=
  allBytes (fun c => Ascii.eqb c " " || Ascii.eqb c strings.newline) s.

(** The test of line 252 on the spacing buffer: without its spaces, it
    ends in two line feeds. *)
Definition doubleLineBreak (spaces : string) : bool :=
  strings.HasSuffix (strings.Replace spaces " " "") (strings.nl ++ strings.nl).

Definition isComment (t : Token) : bool :=
  Is t TokenLineComment || Is t TokenBlockCommentContent.

(** A comment as it stands in the original: the text of a line comment
    token, and the content of a block comment between its delimiters. *)
Definition commentText (original : string) (t : Token) : option string :=
  text <- extractTokenText original t ;;
  if Is t TokenLineComment then Some text
  else if Is t TokenBlockCommentContent then Some ("/*" ++ text ++ "*/")
  else None.

Definition noComments (toks : list Token) : bool :=
  forallb (fun t => negb (isComment t)) toks.

(** No end-of-input token among the tokens: the lexer's streams end by
    running out, and [Next] then makes the end-of-input token. *)
Definition noEOF (toks : list Token) : bool :=
  forallb (fun t => negb (Is t TokenEOF)) toks.

(** The texts of the tokens, when all their ranges lie in [text]. *)
Fixpoint texts (text : string) (toks : list Token) : option (list string) :=
  match toks with
  | [] => Some []
  | t :: rest =>
      x <- extractTokenText text t ;;
      xs <- texts text rest ;;
      Some (x :: xs)
  end.

Definition concat (xs : list string) : string :=
  fold_right String.append "" xs.

(** The tokens follow one another and cover [text]. *)
Definition tiles (text : string) (toks : list Token) : bool :=
  match texts text toks with
  | Some xs => String.eqb (concat xs) text
  | None => false
  end.

(** The brace tokens read [{] and [}], whitespace tokens are laid out with
    spaces and line feeds only, and no open brace comes directly after
    whitespace. *)
Fixpoint plainLayout (text : string) (toks : list Token) : bool :=
  match toks with
  | [] => true
  | t :: rest =>
      match extractTokenText text t with
      | None => false
      | Some x =>
          (if Is t TokenSpace then
             layoutOnly x
             && match rest with
                | t' :: _ => negb (Is t' TokenBraceOpen)
                | [] => true
                end
           else if Is t TokenBraceOpen then String.eqb x "{"
           else if Is t TokenBraceClose then String.eqb x "}"
           else true)
          && plainLayout text rest
      end
  end.

(** The last token, if any, is not whitespace. *)
Fixpoint endsInCode (toks : list Token) : bool :=
  match toks with
  | [] => true
  | [t] => negb (Is t TokenSpace)
  | _ :: rest => endsInCode rest
  end.

Definition allSpace (toks : list Token) : bool :=
  forallb (fun t => Is t TokenSpace) toks.

(** The texts [xs] of the tokens [toks] put together, after the pending
    whitespace [sp], without the whitespace that no token follows. *)
Fixpoint kept (toks : list Token) (xs : list string) (sp : string) : string :=
  match toks, xs with
  | t :: rest, x :: xs' =>
      if Is t TokenSpace then kept rest xs' (sp ++ x)
      else sp ++ x ++ kept rest xs' ""
  | _, _ => ""
  end.

(** The state [st] once the new stream has run out with the spacing
    buffer [sp]. *)
Definition atEnd (st : State) (sp : string) : State :=
  mkState (mkStream [] (inputEnd (newTokens st))) (oldTokens st) (newToken st)
          (oldToken st) (result st) sp (comment st).

(** The kinds of the new stream that the merge looks up in the old one:
    neither whitespace, nor comments, nor the kinds it copies blindly. *)
Definition significant (toks : list Token) : list TokenType :=
  map Type_
      (filter (fun t => negb (Is t TokenSpace) && negb (isComment t)
                        && negb (slices.Contains ignoredTokenTypes (Type_ t))) toks).

(** [xs] is an order-preserving subsequence of [ys]. *)
Fixpoint subsequence (xs ys : list TokenType) : bool :=
  match xs, ys with
  | [], _ => true
  | _ :: _, [] => false
  | x :: xs', y :: ys' =>
      if TokenType_eqb x y then subsequence xs' ys' else subsequence xs ys'
  end.

(** The rendered tokens are kind-subsequence-compatible with the original
    ones. *)
Definition compatible (olds news : list Token) : bool :=
  subsequence (significant news) (map Type_ olds).

(** [prettyCode] on the fragment's tokenizer, with a parser and a renderer
    that turn the program at hand into [rendered]. *)
Definition prettyCodeRendering (rendered : string) (existingCode : string)
    (maxLineLength : Z) : Outcome :=
  prettyCode Lex string (fun _ => inl rendered) (fun program _ _ => program)
             existingCode maxLineLength.

(** [prettyCode] on the fragment's tokenizer, with a parser that fails
    with the message [diagnostic]. *)
Definition prettyCodeFailing (diagnostic : string) (existingCode : string)
    (maxLineLength : Z) : Outcome :=
  prettyCode Lex string (fun _ => inr diagnostic) (fun program _ _ => program)
             existingCode maxLineLength.

(** The variables the loop has when it reaches a given point: those of
    [initial] after [n] iterations. *)
Fixpoint after (existingCode prettyText : string) (n : nat) (st : State) : option State :=
  match n with
  | O => Some st
  | S n' =>
      match step existingCode prettyText st with
      | Some (Continue st') => after existingCode prettyText n' st'
      | _ => None
      end
  end.

(** The variables after [n] iterations of the merge of an original and a
    rendered text, both lexed by the tokenizer of the fragment (the
    variables as the loop finds them, if the loop ends before). *)
Definition stateAfter (original rendered : string) (n : nat) : State :=
  match after original rendered n (initial (Lex original) (Lex rendered)) with
  | Some st => st
  | None => initial (Lex original) (Lex rendered)
  end.

(** The line with index [i] of the original text exists and is blank. *)
Definition blankAt (existingCode : string) (i : Z) : bool :=
  match strings.index (existingCodeLines existingCode) i with
  | Some line => blankLine line
  | None => false
  end.

(** The text [c] is written: it stands in the result or waits in the
    comment buffer. *)
Definition Seen (c res com : string) : Prop := Substring c res \/ Substring c com.

(** What holds of the comment [c] of the old token [tok] before every
    iteration: it is written, or its token is still to come in the old
    stream. *)
Definition Kept (tok : Token) (c : string) (st : State) : Prop :=
  noEOF (pending (oldTokens st)) = true
  /\ (Seen c (result st) (comment st)
      \/ (In tok (pending (oldTokens st)) /\ Is (oldToken st) TokenEOF = false)).

(** The state [st] with other variables for the old stream. *)
Definition withOld (st : State) (olds : TokenStream) (oldTok : Token) : State :=
  mkState (newTokens st) olds (newToken st) oldTok (result st) (spaces st) (comment st).

(** The comment of a comment token as it stands in the original: the
    text of a line comment token; for a content token of a block comment,
    the piece of the original from two bytes before the content to two
    bytes after it, when that piece is the content between [/*] and [*/],
    which is so when the comment is closed and not nested. *)
Definition originalComment (original : string) (t : Token) : option string :=
  if Is t TokenLineComment then extractTokenText original t
  else if Is t TokenBlockCommentContent then
    text <- extractTokenText original t ;;
    whole <- strings.slice original (Offset (StartPos t) - 2) (Offset (EndPos t) + 3) ;;
    if String.eqb whole ("/*" ++ text ++ "*/") then Some whole else None
  else None.

End props.

(** ** The earlier revision of the merge: [src/unnamed/part_000]

    In this file the merge is the body of the handler of [/pretty] (lines
    181-298), run on the code and the width of the decoded request.  It
    differs from [prettyCode] of [main.go]: there is no guard on the
    rendered text, the braces are among the kinds copied blindly, a line
    comment is read with one byte more than its token, and every comment,
    line or block, is written at once when something other than spaces
    stands before it on its line. *)

Module part_000.

Import lexer.

(** [extractTokenText], lines 160-162:
    [text[token.StartPos.Offset : token.EndPos.Offset+1+extra]] *)
Definition extractTokenText (text : string) (token : Token) (extra : Z) : option string :=
  strings.slice text (Offset (StartPos token)) (Offset (EndPos token) + 1 + extra).

(** Lines 191-198. *)
Definition ignoredTokenTypes : list TokenType :=
  [TokenParenClose; TokenParenOpen; TokenBraceOpen; TokenBraceClose;
   TokenBracketOpen; TokenBracketClose].

Section Loop.

Variable existingCode : string.
Variable prettyText : string.

(** Lines 236-250: the comment is added to the comment buffer. *)
Definition addComment (oldTok : Token) (comment : string) : option string :=
  if Is oldTok TokenLineComment then
    text <- extractTokenText existingCode oldTok 1 ;;
    Some (comment ++ text)
  else if Is oldTok TokenBlockCommentContent then
    commentString <- extractTokenText existingCode oldTok 0 ;;
    let comment := comment ++ "/*" ++ commentString ++ "*/" in
    if Line (StartPos oldTok) <? Line (EndPos oldTok)
    then Some (comment ++ strings.nl ++ strings.nl)
    else Some comment
  else Some comment.

(** Lines 234-260: what the inner loop does with the old token it pulled. *)
Definition checkComment (oldTok : Token) (result comment : string)
    : option (string * string) :=
  if Is oldTok TokenLineComment || Is oldTok TokenBlockCommentContent then
    comment <- addComment oldTok comment ;;
    line <- strings.index (main.existingCodeLines existingCode)
                          (Line (StartPosition oldTok) - 1) ;;
    oldLine <- strings.slice line 0 (Column (StartPosition oldTok)) ;;
    let oldLine := strings.Trim oldLine " " in
    if 0 <? strings.len oldLine then Some (result ++ " " ++ comment, "")
    else Some (result, comment)
  else Some (result, comment).

(** Lines 230-265: the inner [for]. *)
Fixpoint resync (newTok : Token) (inputEnd : Position) (olds : list Token)
    (result comment : string) : option (Token * list Token * string * string) :=
  match olds with
  | [] => Some (mkToken TokenEOF inputEnd inputEnd, [], result, comment)
  | oldTok :: rest =>
      '(result, comment) <- checkComment oldTok result comment ;;
      if TokenType_eqb (Type_ oldTok) (Type_ newTok) || Is oldTok TokenEOF
      then Some (oldTok, rest, result, comment)
      else resync newTok inputEnd rest result comment
  end.

(** Lines 274-294. *)
Definition emitToken (newTok : Token) (result spaces comment : string) : option string :=
  let spacesString := spaces in
  let existingIndent :=
    strings.len spacesString - (strings.LastIndex spacesString strings.newline + 1) in
  let result := result ++ strings.TrimRight spacesString " " in
  result <-
    (if 0 <? strings.len comment then
       padding <- strings.Repeat " " (Column (StartPosition newTok)) ;;
       Some ((result ++ indent.String_ padding comment) ++ padding)
     else
       pad <- strings.Repeat " " existingIndent ;;
       Some (result ++ pad)) ;;
  text <- extractTokenText prettyText newTok 0 ;;
  Some (result ++ text).

(** Lines 211-296: the body of the outer [for]. *)
Definition step (st : main.State) : option main.Flow :=
  let (newTok, news) := main.pull st in
  if Is newTok TokenSpace then
    text <- extractTokenText prettyText newTok 0 ;;
    Some (main.Continue
            (main.mkState news (main.oldTokens st) newTok (main.oldToken st)
               (main.result st) (main.spaces st ++ text) (main.comment st)))
  else if slices.Contains ignoredTokenTypes (Type_ newTok) then
    text <- extractTokenText prettyText newTok 0 ;;
    Some (main.Continue
            (main.mkState news (main.oldTokens st) newTok (main.oldToken st)
               ((main.result st ++ main.spaces st) ++ text) "" (main.comment st)))
  else
    '(oldTok, olds, res, com) <-
      (if negb (Is (main.oldToken st) TokenEOF) then
         resync newTok (inputEnd (main.oldTokens st)) (pending (main.oldTokens st))
                (main.result st) (main.comment st)
       else Some (main.oldToken st, pending (main.oldTokens st),
                  main.result st, main.comment st)) ;;
    let olds := mkStream olds (inputEnd (main.oldTokens st)) in
    if Is oldTok TokenEOF && Is newTok TokenEOF then
      Some (main.Break (main.mkState news olds newTok oldTok (res ++ com)
                          (main.spaces st) com))
    else
      res <- emitToken newTok res (main.spaces st) com ;;
      Some (main.Continue (main.mkState news olds newTok oldTok res "" "")).

(** The outer [for], run for at most [fuel] iterations; what it leaves in
    [result] is the body of the response. *)
Fixpoint loop (fuel : nat) (st : main.State) : main.Outcome :=
  match fuel with
  | O => main.OutOfFuel
  | S fuel' =>
      match step st with
      | None => main.Panicked
      | Some (main.Break st') => main.Returned (main.result st')
      | Some (main.Continue st') => loop fuel' st'
      end
  end.

(** Lines 188-298. *)
Definition merge (oldStream newStream : TokenStream) : main.Outcome :=
  loop (S (List.length (pending newStream))) (main.initial oldStream newStream).

End Loop.

(** The merge of an original and a rendered text, both lexed by the
    tokenizer of the fragment. *)
Definition reconcile (original rendered : string) : main.Outcome :=
  merge original rendered (Lex original) (Lex rendered).

End part_000.

(** ** Further notions *)

Module more.

Import lexer main props.

(** The variables an iteration hands on. *)
Definition flowState (f : Flow) : State :=
  match f with
  | Continue st => st
  | Break st => st
  end.

(** The range of a token of the rendered text lies in the text and its
    column is not negative; an end-of-input token is never written. *)
Definition newTokenOK (prettyText : string) (t : Token) : bool :=
  Is t TokenEOF
  || match extractTokenText prettyText t with
     | Some _ => 0 <=? Column (StartPosition t)
     | None => false
     end.

(** The range of a comment token of the original lies in the text, and
    for a line comment its line and its column lie in the text too. *)
Definition oldTokenOK (existingCode : string) (t : Token) : bool :=
  if Is t TokenLineComment then
    match extractTokenText existingCode t,
          strings.index (existingCodeLines existingCode) (Line (StartPosition t) - 1) with
    | Some _, Some line =>
        match strings.slice line 0 (Column (StartPosition t)) with
        | Some _ => true
        | None => false
        end
    | _, _ => false
    end
  else if Is t TokenBlockCommentContent then
    match extractTokenText existingCode t with
    | Some _ => true
    | None => false
    end
  else true.

(** Every whitespace token is laid out with spaces and line feeds only. *)
Fixpoint spacesLaidOut (text : string) (toks : list Token) : bool :=
  match toks with
  | [] => true
  | t :: rest =>
      (if Is t TokenSpace then
         match extractTokenText text t with
         | Some x => layoutOnly x
         | None => false
         end
       else true)
      && spacesLaidOut text rest
  end.

(** The streams of a state hold tokens whose ranges lie in the texts. *)
Definition ranged (existingCode prettyText : string) (st : State) : Prop :=
  forallb (newTokenOK prettyText) (pending (newTokens st)) = true
  /\ forallb (oldTokenOK existingCode) (pending (oldTokens st)) = true.

(** What holds of the text [x] of the rendered token [tok] before every
    iteration: it is written, or its token is still to come. *)
Definition Pending (tok : Token) (x : string) (st : State) : Prop :=
  Is (newToken st) TokenEOF = false
  /\ noEOF (pending (newTokens st)) = true
  /\ (Substring x (result st) \/ In tok (pending (newTokens st))).

(** A text of spaces only. *)
Definition spacesOnly (s : string) : bool :=
  allBytes (fun c => strings.inCutset c " ") s.

(** What holds before every iteration of the earlier merge of a comment
    token [tok] that is still to come in the old stream. *)
Definition Ahead (tok : Token) (st : State) : Prop :=
  noEOF (pending (oldTokens st)) = true
  /\ In tok (pending (oldTokens st))
  /\ Is (oldToken st) TokenEOF = false.

(** No token of the kind [ty] among the tokens. *)
Definition noKind (ty : TokenType) (toks : list Token) : bool :=
  forallb (fun t => negb (TokenType_eqb (Type_ t) ty)) toks.

End more.

(** ** Facts about strings *)

Import lexer main props.

Lemma append_nil_r (s : string) : s ++ "" = s.
Proof. induction s as [|a s IH]; simpl; [reflexivity | now rewrite IH]. Qed.

Lemma append_assoc (s t u : string) : (s ++ t) ++ u = s ++ t ++ u.
Proof. induction s as [|a s IH]; simpl; [reflexivity | now rewrite IH]. Qed.

Lemma Substring_refl (s : string) : Substring s s.
Proof. exists "", "". simpl. now rewrite append_nil_r. Qed.

Lemma Substring_nil (s : string) : Substring "" s.
Proof. exists "", s. reflexivity. Qed.

Lemma Substring_app_l (c s t : string) : Substring c s -> Substring c (s ++ t).
Proof.
  intros (pre & post & ->). exists pre, (post ++ t).
  now rewrite !append_assoc.
Qed.

Lemma Substring_app_r (c s t : string) : Substring c t -> Substring c (s ++ t).
Proof.
  intros (pre & post & ->). exists (s ++ pre), post.
  now rewrite !append_assoc.
Qed.

Lemma Substring_cons (c s : string) (a : ascii) : Substring c s -> Substring c (String a s).
Proof. intros H. apply (Substring_app_r c (String a "") s H). Qed.

Create HintDb substring.
#[local] Hint Resolve Substring_refl Substring_nil Substring_app_l Substring_app_r : substring.

Lemma prefix_app (p s : string) : String.prefix p s = true <-> exists post, s = p ++ post.
Proof.
  revert s. induction p as [|a p IH]; intros s; simpl.
  - destruct s; split; eauto.
  - destruct s as [|b s]; simpl.
    + split; [discriminate | intros (post & H); discriminate].
    + destruct (ascii_dec a b) as [->|Hab].
      * split.
        -- intros H. apply IH in H. destruct H as (post & ->). now exists post.
        -- intros (post & H). apply IH. exists post. congruence.
      * split; [discriminate | intros (post & H); congruence].
Qed.

Lemma contains_spec (s sub : string) : contains s sub = true <-> Substring sub s.
Proof.
  induction s as [|a s IH].
  - cbn [contains]. rewrite orb_false_r, prefix_app. split.
    + intros (post & ->). exists "", post. reflexivity.
    + intros (pre & post & H). destruct pre; simpl in H.
      * eauto.
      * discriminate.
  - cbn [contains]. rewrite orb_true_iff, IH, prefix_app. split.
    + intros [(post & ->) | H].
      * exists "", post. reflexivity.
      * now apply Substring_cons.
    + intros (pre & post & H). destruct pre as [|b pre]; simpl in H.
      * left. eauto.
      * right. injection H as _ ->. now exists pre, post.
Qed.

Lemma contains_false (s sub : string) : contains s sub = false -> ~ Substring sub s.
Proof. intros H HS. apply contains_spec in HS. congruence. Qed.

(** *** Slices *)

Lemma length_append (s t : string) :
  String.length (s ++ t) = (String.length s + String.length t)%nat.
Proof. induction s as [|a s IH]; simpl; [reflexivity | now rewrite IH]. Qed.

Lemma take_drop (n : nat) (s : string) : strings.take n s ++ strings.drop n s = s.
Proof.
  revert s. induction n as [|n IH]; intros s; [reflexivity|].
  destruct s as [|a s]; [reflexivity|]. simpl. now rewrite IH.
Qed.

Lemma length_take (n : nat) (s : string) :
  (n <= String.length s)%nat -> String.length (strings.take n s) = n.
Proof.
  revert s. induction n as [|n IH]; intros s H; [reflexivity|].
  destruct s as [|a s]; simpl in *; [lia|]. rewrite IH; lia.
Qed.

Lemma length_drop (n : nat) (s : string) :
  String.length (strings.drop n s) = (String.length s - n)%nat.
Proof.
  revert s. induction n as [|n IH]; intros s; [simpl; lia|].
  destruct s as [|a s]; [reflexivity|]. simpl. apply IH.
Qed.

Lemma slice_some (s : string) (lo hi : Z) (x : string) :
  strings.slice s lo hi = Some x ->
  0 <= lo /\ lo <= hi /\ hi <= strings.len s
  /\ exists pre post, s = pre ++ x ++ post /\ strings.len pre = lo /\ strings.len x = hi - lo.
Proof.
  unfold strings.slice.
  destruct ((0 <=? lo) && (lo <=? hi) && (hi <=? strings.len s)) eqn:E; [|discriminate].
  apply andb_true_iff in E. destruct E as [E E3]. apply andb_true_iff in E.
  destruct E as [E1 E2]. apply Z.leb_le in E1, E2, E3.
  intros H. injection H as <-. unfold strings.len in *.
  repeat split; try assumption.
  exists (strings.take (Z.to_nat lo) s),
         (strings.drop (Z.to_nat (hi - lo)) (strings.drop (Z.to_nat lo) s)).
  split; [|split].
  - now rewrite take_drop, take_drop.
  - rewrite length_take; lia.
  - rewrite length_take; [lia|]. rewrite length_drop. lia.
Qed.

Lemma slice_none (s : string) (lo hi : Z) :
  strings.slice s lo hi = None <-> ~ (0 <= lo /\ lo <= hi /\ hi <= strings.len s).
Proof.
  unfold strings.slice.
  destruct ((0 <=? lo) && (lo <=? hi) && (hi <=? strings.len s)) eqn:E.
  - apply andb_true_iff in E. destruct E as [E E3]. apply andb_true_iff in E.
    destruct E as [E1 E2]. apply Z.leb_le in E1, E2, E3.
    split; [discriminate | intros H; exfalso; apply H; auto].
  - split; [|reflexivity]. intros _ (H1 & H2 & H3).
    apply Z.leb_le in H1, H2, H3. rewrite H1, H2, H3 in E. discriminate.
Qed.

(** ** Facts about tokens *)

Lemma TokenType_eqb_eq (a b : TokenType) : TokenType_eqb a b = true <-> a = b.
Proof. unfold TokenType_eqb. destruct (TokenType_eq_dec a b); split; congruence. Qed.

Lemma Is_eq (t : Token) (ty : TokenType) : Is t ty = true <-> Type_ t = ty.
Proof. apply TokenType_eqb_eq. Qed.

Lemma Is_other (t : Token) (ty ty' : TokenType) :
  Is t ty = true -> ty <> ty' -> Is t ty' = false.
Proof.
  intros H Hne. apply Is_eq in H. destruct (Is t ty') eqn:E; [|reflexivity].
  apply Is_eq in E. congruence.
Qed.

(** The tokenizer of the fragment on the text of a worked example. *)
Example Lex_sample :
  map (fun t => (Type_ t, Offset (StartPos t), Offset (EndPos t)))
      (pending (Lex "x = 1 // note"))
  = [(TokenIdentifier, 0, 0); (TokenSpace, 1, 1); (TokenEqual, 2, 2); (TokenSpace, 3, 3);
     (TokenDecimalIntegerLiteral, 4, 4); (TokenSpace, 5, 5); (TokenLineComment, 6, 12)].
Proof. reflexivity. Qed.

(** ** Termination of the two loops *)

Section Termination.

Variables existingCode prettyText : string.

Lemma resync_stops (newTok : Token) (e : Position) (olds : list Token) :
  forall res sp com oldTok rest res' com',
    resync existingCode newTok e olds res sp com = Some (oldTok, rest, res', com') ->
    Type_ oldTok = Type_ newTok \/ Is oldTok TokenEOF = true.
Proof.
  induction olds as [|t olds IH]; intros res sp com oldTok rest res' com' H; simpl in H.
  - injection H as <- _ _ _. right. reflexivity.
  - destruct (checkComment existingCode t res sp com) as [[r c]|]; [|discriminate].
    destruct (TokenType_eqb (Type_ t) (Type_ newTok) || Is t TokenEOF) eqn:E.
    + injection H as <- _ _ _. apply orb_true_iff in E.
      destruct E as [E|E]; [left; now apply TokenType_eqb_eq | now right].
    + eapply IH; eassumption.
Qed.

(** What [resync] leaves of the old tokens is a suffix of them. *)
Lemma resync_suffix (newTok : Token) (e : Position) (olds : list Token) :
  forall res sp com oldTok rest res' com',
    resync existingCode newTok e olds res sp com = Some (oldTok, rest, res', com') ->
    exists done, olds = (done ++ rest)%list.
Proof.
  induction olds as [|t olds IH]; intros res sp com oldTok rest res' com' H; simpl in H.
  - injection H as _ <- _ _. now exists [].
  - destruct (checkComment existingCode t res sp com) as [[r c]|]; [|discriminate].
    destruct (TokenType_eqb (Type_ t) (Type_ newTok) || Is t TokenEOF).
    + injection H as _ <- _ _. now exists [t].
    + destruct (IH _ _ _ _ _ _ _ H) as (done & ->). now exists (t :: done).
Qed.

(** On the end-of-input token of the new stream the iteration breaks. *)
Lemma step_at_eof (st : State) (newTok : Token) (news : TokenStream) (f : Flow) :
  pull st = (newTok, news) ->
  Is newTok TokenEOF = true ->
  step existingCode prettyText st = Some f ->
  exists st', f = Break st'.
Proof.
  intros Hp He Hs. unfold step in Hs. rewrite Hp in Hs.
  rewrite (Is_other _ _ TokenSpace He), (Is_other _ _ TokenBraceOpen He) in Hs by discriminate.
  assert (Hc : slices.Contains ignoredTokenTypes (Type_ newTok) = false).
  { apply Is_eq in He. rewrite He. reflexivity. }
  rewrite Hc in Hs.
  destruct (negb (Is (oldToken st) TokenEOF)) eqn:Eo.
  - destruct (resync _ _ _ _ _ _ _) as [[[[oldTok olds] res] com]|] eqn:Er; [|discriminate].
    apply resync_stops in Er.
    assert (Ho : Is oldTok TokenEOF = true).
    { destruct Er as [Er|Er]; [|exact Er]. apply Is_eq. apply Is_eq in He. congruence. }
    rewrite Ho, He in Hs. simpl in Hs. injection Hs as <-. eauto.
  - apply negb_false_iff in Eo. rewrite Eo, He in Hs. simpl in Hs.
    injection Hs as <-. eauto.
Qed.

Lemma step_continue_advances (st st' : State) :
  step existingCode prettyText st = Some (Continue st') ->
  (List.length (pending (newTokens st')) < List.length (pending (newTokens st)))%nat.
Proof.
  intros Hs.
  destruct (pull st) as [newTok news] eqn:Hp.
  destruct (Is newTok TokenEOF) eqn:He.
  { destruct (step_at_eof _ _ _ _ Hp He Hs) as (x & Hx). discriminate. }
  assert (Hn : (List.length (pending news) < List.length (pending (newTokens st)))%nat).
  { unfold pull in Hp. destruct (negb (Is (newToken st) TokenEOF)) eqn:E.
    - unfold Next in Hp. destruct (pending (newTokens st)) as [|t rest].
      + injection Hp as <- <-. discriminate.
      + injection Hp as <- <-. simpl. lia.
    - injection Hp as <- <-. apply negb_false_iff in E. congruence. }
  unfold step in Hs. rewrite Hp in Hs.
  destruct (Is newTok TokenSpace).
  { destruct (extractTokenText prettyText newTok); [|discriminate].
    injection Hs as <-. exact Hn. }
  destruct (Is newTok TokenBraceOpen).
  { unfold Next, Cursor, Revert in Hs. destruct (pending news) as [|t rest] eqn:Ep.
    - simpl in Hs. injection Hs as <-. simpl. rewrite Ep. exact Hn.
    - destruct (TokenType_eqb (Type_ t) TokenBraceClose);
        injection Hs as <-; simpl; [|rewrite Ep]; simpl in *; lia. }
  destruct (slices.Contains ignoredTokenTypes (Type_ newTok)).
  { destruct (extractTokenText prettyText newTok); [|discriminate].
    injection Hs as <-. exact Hn. }
  destruct (if negb (Is (oldToken st) TokenEOF) then _ else _)
    as [[[[oldTok olds] res] com]|]; [|discriminate].
  destruct (Is oldTok TokenEOF && Is newTok TokenEOF); [discriminate|].
  destruct (emitToken prettyText newTok res (spaces st) com); [|discriminate].
  injection Hs as <-. exact Hn.
Qed.

(** More iterations than the loop needs do not change its outcome. *)
Lemma loop_more_fuel (fuel : nat) :
  forall st more,
    loop existingCode prettyText fuel st <> OutOfFuel ->
    (fuel <= more)%nat ->
    loop existingCode prettyText more st = loop existingCode prettyText fuel st.
Proof.
  induction fuel as [|fuel IH]; intros st more Hne Hle; [now contradiction Hne|].
  destruct more as [|more]; [lia|]. simpl in *.
  destruct (step existingCode prettyText st) as [[st'|st']|]; try reflexivity.
  apply IH; [exact Hne | lia].
Qed.

Lemma loop_terminates (fuel : nat) :
  forall st,
    (List.length (pending (newTokens st)) < fuel)%nat ->
    loop existingCode prettyText fuel st <> OutOfFuel.
Proof.
  induction fuel as [|fuel IH]; intros st Hlt; [lia|].
  simpl. destruct (step existingCode prettyText st) as [[st'|st']|] eqn:Hs; try discriminate.
  apply IH. apply step_continue_advances in Hs. lia.
Qed.

End Termination.

(** C9. Termination of the merge.  Every iteration of the outer loop that
    does not end the loop leaves strictly fewer new tokens to read; the
    inner loop over the old stream hands back a token of the kind of the
    new token or the end-of-input token, having consumed a prefix of the
    old tokens; and for all texts and all pairs of token streams the merge
    ends, with a string or with a panic, within one iteration more than
    there are new tokens, any larger number of iterations giving the same
    outcome. *)
Theorem merge_terminates :
  (forall existingCode prettyText st st',
      step existingCode prettyText st = Some (Continue st') ->
      (List.length (pending (newTokens st')) < List.length (pending (newTokens st)))%nat)
  /\ (forall existingCode newTok e olds res sp com oldTok rest res' com',
         resync existingCode newTok e olds res sp com = Some (oldTok, rest, res', com') ->
         (Type_ oldTok = Type_ newTok \/ Is oldTok TokenEOF = true)
         /\ exists done, olds = (done ++ rest)%list)
  /\ (forall existingCode prettyText oldStream newStream,
         merge existingCode prettyText oldStream newStream <> OutOfFuel
         /\ forall fuel,
              (List.length (pending newStream) < fuel)%nat ->
              loop existingCode prettyText fuel (initial oldStream newStream)
              = merge existingCode prettyText oldStream newStream).
Proof.
  split; [|split].
  - intros. eapply step_continue_advances; eassumption.
  - intros. split; [eapply resync_stops | eapply resync_suffix]; eassumption.
  - intros existingCode prettyText oldStream newStream.
    assert (H : merge existingCode prettyText oldStream newStream <> OutOfFuel).
    { unfold merge. apply loop_terminates. simpl. lia. }
    split; [exact H|]. intros fuel Hlt. unfold merge in *.
    apply loop_more_fuel; [exact H | lia].
Qed.

Lemma merge_terminates_witness :
  (List.length (pending (newTokens (stateAfter "f(a)" "f (a)" 1)))
   < List.length (pending (newTokens (stateAfter "f(a)" "f (a)" 0))))%nat.
Proof.
  apply (proj1 merge_terminates "f(a)" "f (a)").
  reflexivity.
Defined.

(** ** The tokens the merge copies without looking at the old stream *)

(** C7. Structural bypass.  When the new token of an iteration is a
    parenthesis or a bracket, the iteration appends the spacing buffer and
    then the token's text, as it stands in the rendered text, to the
    result, empties the spacing buffer and leaves the old stream, the old
    token and the comment buffer as they were; it does the same whatever
    the original text, the old stream and the old token are. *)
Theorem bypass_copies_token :
  forall existingCode prettyText st newTok news text,
    pull st = (newTok, news) ->
    In (Type_ newTok) [TokenParenOpen; TokenParenClose; TokenBracketOpen; TokenBracketClose] ->
    extractTokenText prettyText newTok = Some text ->
    exists st',
      step existingCode prettyText st = Some (Continue st')
      /\ result st' = (result st ++ spaces st) ++ text
      /\ spaces st' = ""
      /\ newTokens st' = news
      /\ oldTokens st' = oldTokens st
      /\ oldToken st' = oldToken st
      /\ comment st' = comment st
      /\ forall existingCode' olds oldTok,
           step existingCode' prettyText (withOld st olds oldTok)
           = Some (Continue (withOld st' olds oldTok)).
Proof.
  intros existingCode prettyText st newTok news text Hp Hk Ht.
  assert (Hs : Is newTok TokenSpace = false /\ Is newTok TokenBraceOpen = false
               /\ slices.Contains ignoredTokenTypes (Type_ newTok) = true).
  { unfold Is. simpl in Hk.
    destruct Hk as [<-|[<-|[<-|[<-|[]]]]]; repeat split; reflexivity. }
  destruct Hs as (Hs1 & Hs2 & Hs3).
  exists (mkState news (oldTokens st) newTok (oldToken st)
                  ((result st ++ spaces st) ++ text) "" (comment st)).
  split; [|repeat split].
  - unfold step. rewrite Hp, Hs1, Hs2, Hs3, Ht. reflexivity.
  - intros existingCode' olds oldTok. unfold step.
    change (pull (withOld st olds oldTok)) with (pull st).
    rewrite Hp, Hs1, Hs2, Hs3, Ht. reflexivity.
Qed.

Lemma bypass_copies_token_witness :
  spaces (stateAfter "f(a)" "f (a)" 2) = " "
  /\ exists st',
       step "f(a)" "f (a)" (stateAfter "f(a)" "f (a)" 2) = Some (Continue st')
       /\ result st' = "f ("
       /\ spaces st' = "".
Proof.
  split; [reflexivity|].
  destruct (bypass_copies_token "f(a)" "f (a)" (stateAfter "f(a)" "f (a)" 2)
              (fst (pull (stateAfter "f(a)" "f (a)" 2)))
              (snd (pull (stateAfter "f(a)" "f (a)" 2))) "(")
    as (st' & H1 & H2 & H3 & _).
  - reflexivity.
  - vm_compute. auto.
  - reflexivity.
  - exists st'. rewrite H2, H3. repeat split. exact H1.
Defined.

(** ** Trimming *)

Lemma TrimLeft_blank (s cs : string) :
  allBytes (fun c => strings.inCutset c cs) s = true -> strings.TrimLeft s cs = "".
Proof.
  induction s as [|a s IH]; simpl; [reflexivity|].
  intros H. apply andb_true_iff in H. destruct H as [Ha Hs].
  rewrite Ha. now apply IH.
Qed.

Lemma TrimLeft_head (s cs : string) :
  allBytes (fun c => strings.inCutset c cs) s = false ->
  exists a r, strings.TrimLeft s cs = String a r /\ strings.inCutset a cs = false.
Proof.
  induction s as [|a s IH]; simpl; [discriminate|].
  destruct (strings.inCutset a cs) eqn:Ha; simpl.
  - exact IH.
  - intros _. eauto.
Qed.

Lemma TrimRight_nil_iff (s cs : string) :
  strings.TrimRight s cs = "" <-> allBytes (fun c => strings.inCutset c cs) s = true.
Proof.
  induction s as [|a s IH]; simpl; [tauto|].
  destruct (strings.TrimRight s cs) eqn:E.
  - destruct (strings.inCutset a cs); simpl.
    + rewrite <- IH. tauto.
    + split; discriminate.
  - rewrite andb_true_iff, <- IH. split; [discriminate | intros [_ H]; discriminate].
Qed.

Lemma Trim_nil_iff (s cs : string) :
  strings.Trim s cs = "" <-> allBytes (fun c => strings.inCutset c cs) s = true.
Proof.
  unfold strings.Trim.
  destruct (allBytes (fun c => strings.inCutset c cs) s) eqn:E.
  - rewrite (TrimLeft_blank _ _ E). simpl. tauto.
  - destruct (TrimLeft_head _ _ E) as (a & r & -> & Ha).
    split; [|discriminate]. intros H. apply TrimRight_nil_iff in H.
    simpl in H. rewrite Ha in H. discriminate.
Qed.

Lemma len_zero (s : string) : (strings.len s =? 0) = String.eqb s "".
Proof. destruct s; reflexivity. Qed.

Lemma len_pos (s : string) : (0 <? strings.len s) = negb (String.eqb s "").
Proof. destruct s; reflexivity. Qed.

Lemma Trim_blank (s : string) :
  String.eqb (strings.Trim s cutset) "" = blankLine s.
Proof.
  unfold blankLine. destruct (allBytes _ s) eqn:E.
  - apply String.eqb_eq. now apply Trim_nil_iff.
  - apply String.eqb_neq. intros H. apply Trim_nil_iff in H. congruence.
Qed.

Lemma index_in_range (xs : list string) (i : Z) :
  0 <= i < Z.of_nat (List.length xs) -> exists x, strings.index xs i = Some x.
Proof.
  intros H. unfold strings.index.
  destruct (0 <=? i) eqn:E; [|lia].
  destruct (nth_error xs (Z.to_nat i)) eqn:En; [eauto|].
  apply nth_error_None in En. lia.
Qed.

Lemma index_some_range (xs : list string) (i : Z) (x : string) :
  strings.index xs i = Some x -> 0 <= i < Z.of_nat (List.length xs).
Proof.
  unfold strings.index. destruct (0 <=? i) eqn:E; [|discriminate].
  intros H. assert (Hn : nth_error xs (Z.to_nat i) <> None) by congruence.
  apply nth_error_Some in Hn. lia.
Qed.

(** ** Line comments of the old stream *)

Lemma checkTrailing_spec (existingCode : string) (tok : Token) (line before : string) :
  strings.index (existingCodeLines existingCode) (Line (StartPosition tok) - 1) = Some line ->
  strings.slice line 0 (Column (StartPosition tok)) = Some before ->
  checkTrailing existingCode tok
  = Some (negb (blankLine before), strings.Trim before cutset).
Proof.
  intros Hl Hb. unfold checkTrailing. rewrite Hl, Hb.
  now rewrite len_pos, Trim_blank.
Qed.

Lemma checkTrailing_inv (existingCode : string) (tok : Token) (b : bool) (oldLine : string) :
  checkTrailing existingCode tok = Some (b, oldLine) ->
  (0 <? strings.len oldLine) = b
  /\ 0 <= Line (StartPosition tok) - 1 < Z.of_nat (List.length (existingCodeLines existingCode)).
Proof.
  unfold checkTrailing.
  destruct (strings.index _ _) as [line|] eqn:Hl; [|discriminate].
  destruct (strings.slice _ _ _) as [before|]; [|discriminate].
  intros H. injection H as <- <-. split; [reflexivity|].
  eapply index_some_range; eassumption.
Qed.

(** C4, as amended.  A line comment is classified as trailing exactly when
    the text before its start column on its line of the original has a byte
    other than a space or a tab.  A trailing line comment is appended to the
    result at once, together with the comments still pending in the comment
    buffer: one space, the pending comments, the comment; the comment
    buffer is then empty.  With nothing pending, exactly one space comes
    before the comment, and the original [x = 1 // note] with the rendered
    [x = 1] gives [x = 1 // note]. *)
Theorem trailing_comment_placement :
  (forall existingCode tok line before,
      strings.index (existingCodeLines existingCode) (Line (StartPosition tok) - 1) = Some line ->
      strings.slice line 0 (Column (StartPosition tok)) = Some before ->
      exists oldLine,
        checkTrailing existingCode tok = Some (negb (blankLine before), oldLine))
  /\ (forall existingCode tok oldLine text result spaces comment,
         Is tok TokenLineComment = true ->
         checkTrailing existingCode tok = Some (true, oldLine) ->
         extractTokenText existingCode tok = Some text ->
         checkComment existingCode tok result spaces comment
         = Some (result ++ " " ++ comment ++ text, ""))
  /\ reconcile "x = 1 // note" "x = 1" = Returned "x = 1 // note".
Proof.
  split; [|split].
  - intros existingCode tok line before Hl Hb. eexists.
    eapply checkTrailing_spec; eassumption.
  - intros existingCode tok oldLine text result spaces comment Hk Ht Hx.
    unfold checkComment, lineComment. rewrite Hk, Ht. simpl. rewrite Hx. reflexivity.
  - reflexivity.
Qed.

Lemma trailing_comment_placement_witness :
  checkComment "x = 1 // note"
    (mkToken TokenLineComment (mkPosition 6 1 6) (mkPosition 12 1 12)) "x = 1" "" ""
  = Some ("x = 1 // note", "").
Proof.
  apply (proj1 (proj2 trailing_comment_placement) "x = 1 // note" _ "x = 1" "// note").
  - reflexivity.
  - reflexivity.
  - reflexivity.
Defined.

(** C4, as stated, fails: with a block comment before it on its line, the
    trailing line comment is appended after the pending block comment and
    no space comes before it. *)
Lemma trailing_comment_placement_counterexample :
  checkTrailing "x = 1 /* a */ // note"
    (mkToken TokenLineComment (mkPosition 14 1 14) (mkPosition 20 1 20))
  = Some (true, "x = 1 /* a */")
  /\ reconcile "x = 1 /* a */ // note" "x = 1" = Returned "x = 1 /* a */// note"
  /\ ~ Substring " // note" "x = 1 /* a */// note".
Proof.
  split; [reflexivity|]. split; [reflexivity|].
  apply contains_false. reflexivity.
Qed.

(** C5.  For a leading line comment (nothing but spaces and tabs before it
    on its line), the comment buffer receives, in this order: a line feed
    if the comment is not on the first line, the line before it is blank
    and the spacing buffer, its spaces left out, does not end in two line
    feeds; the text of the comment; a line feed if the line after it exists
    and is blank; and the line feed that ends the comment.  The result is
    untouched.  The original [// header], blank line, [a = 1] with the
    rendered [a = 1] gives the original back: the blank line survives. *)
Theorem leading_comment_blank_lines :
  (forall existingCode tok oldLine text result spaces comment,
      Is tok TokenLineComment = true ->
      checkTrailing existingCode tok = Some (false, oldLine) ->
      extractTokenText existingCode tok = Some text ->
      let line := Line (StartPosition tok) in
      let before :=
        if (1 <? line) && blankAt existingCode (line - 2) && negb (doubleLineBreak spaces)
        then strings.nl else "" in
      let after :=
        if (line <? Z.of_nat (List.length (existingCodeLines existingCode)))
           && blankAt existingCode line
        then strings.nl else "" in
      checkComment existingCode tok result spaces comment
      = Some (result, (((comment ++ before) ++ text) ++ after) ++ strings.nl))
  /\ reconcile ("// header" ++ strings.nl ++ strings.nl ++ "a = 1") "a = 1"
     = Returned ("// header" ++ strings.nl ++ strings.nl ++ "a = 1").
Proof.
  split; [|reflexivity].
  intros existingCode tok oldLine text result spaces comment Hk Ht Hx line before after.
  destruct (checkTrailing_inv _ _ _ _ Ht) as (Hlen & Hrange).
  assert (Hol : (strings.len oldLine =? 0) = true).
  { apply Z.ltb_ge in Hlen. apply Z.eqb_eq. unfold strings.len in *. lia. }
  unfold checkComment, lineComment. rewrite Hk, Ht.
  unfold checkPreviousLine, checkNextLine, blankAt, doubleLineBreak in *.
  fold line. rewrite Hol. cbn [negb andb].
  assert (Hprev : strings.index (existingCodeLines existingCode) (line - 2) = None ->
                  (1 <? line) = false).
  { intros Hn. destruct (1 <? line) eqn:E; [|reflexivity]. apply Z.ltb_lt in E.
    destruct (index_in_range (existingCodeLines existingCode) (line - 2)) as (x & Hx').
    - fold line in Hrange. lia.
    - congruence. }
  assert (Hnext : strings.index (existingCodeLines existingCode) line = None ->
                  (line <? Z.of_nat (List.length (existingCodeLines existingCode))) = false).
  { intros Hn. destruct (line <? _) eqn:E; [|reflexivity]. apply Z.ltb_lt in E.
    destruct (index_in_range (existingCodeLines existingCode) line) as (x & Hx').
    - fold line in Hrange. lia.
    - congruence. }
  subst before after.
  destruct (strings.index (existingCodeLines existingCode) (line - 2)) as [prev|].
  - destruct (strings.index (existingCodeLines existingCode) line) as [next|].
    + rewrite !len_zero, !Trim_blank.
      destruct (1 <? line), (blankLine prev), (strings.HasSuffix _ _),
        (line <? _), (blankLine next); cbn; rewrite Hx; cbn;
        rewrite ?append_nil_r; reflexivity.
    + rewrite (Hnext eq_refl). rewrite !len_zero, !Trim_blank.
      destruct (1 <? line), (blankLine prev), (strings.HasSuffix _ _);
        cbn; rewrite Hx; cbn; rewrite ?append_nil_r; reflexivity.
  - rewrite (Hprev eq_refl). cbn.
    destruct (strings.index (existingCodeLines existingCode) line) as [next|].
    + rewrite Hx. rewrite !len_zero, !Trim_blank.
      destruct (line <? _), (blankLine next); cbn; rewrite ?append_nil_r; reflexivity.
    + rewrite Hx. rewrite (Hnext eq_refl). cbn. rewrite ?append_nil_r. reflexivity.
Qed.

Lemma leading_comment_blank_lines_witness :
  checkComment ("a" ++ strings.nl ++ strings.nl ++ "// c" ++ strings.nl ++ strings.nl ++ "b")
    (mkToken TokenLineComment (mkPosition 3 3 0) (mkPosition 6 3 3)) "a" strings.nl ""
  = Some ("a", strings.nl ++ "// c" ++ strings.nl ++ strings.nl).
Proof.
  exact (proj1 leading_comment_blank_lines
           ("a" ++ strings.nl ++ strings.nl ++ "// c" ++ strings.nl ++ strings.nl ++ "b")
           (mkToken TokenLineComment (mkPosition 3 3 0) (mkPosition 6 3 3))
           "" "// c" "a" strings.nl "" eq_refl eq_refl eq_refl).
Defined.

(** ** The open brace and its one token of lookahead *)




(** ** A parse that fails *)

Lemma colon_is_no_space (err : string) :
  strings.HasPrefix err "Parsing failed:" = true ->
  strings.HasPrefix err "Parsing failed " = false.
Proof.
  unfold strings.HasPrefix. intros H. apply prefix_app in H. destruct H as (post & ->).
  reflexivity.
Qed.

(** C8 (defect of the code).  The guard of line 179 looks for
    [Parsing failed ] with a space after [failed].  A message of the
    parser that begins with [Parsing failed:], a colon after [failed], does
    not meet it: [prettyCode] does not return the message, it lexes it and
    merges it with the original like a rendered text.  For the original
    [x = 1 // note], which does not parse, the comment of the original
    lands inside the message. *)
Theorem parse_failure_is_merged :
  (forall (Lex : string -> TokenStream) (Program : Type)
          (ParseProgram : string -> Program + string)
          (Prettier : Program -> Z -> string -> string)
          existingCode maxLineLength err,
      ParseProgram existingCode = inr err ->
      strings.HasPrefix err "Parsing failed:" = true ->
      pretty Program ParseProgram Prettier existingCode maxLineLength = err
      /\ prettyCode Lex Program ParseProgram Prettier existingCode maxLineLength
         = merge existingCode err (Lex existingCode) (Lex err))
  /\ prettyCodeFailing
       ("Parsing failed:" ++ strings.nl ++ "error: unexpected token: identifier")
       "x = 1 // note" 80
     = Returned ("Parsing // note failed:" ++ strings.nl ++ "error: unexpected token: identifier")
  /\ prettyCodeFailing
       ("Parsing failed:" ++ strings.nl ++ "error: unexpected token: identifier")
       "x = 1 // note" 80
     <> Returned ("Parsing failed:" ++ strings.nl ++ "error: unexpected token: identifier").
Proof.
  split; [|split].
  - intros Lex Program ParseProgram Prettier existingCode maxLineLength err Hp Hpre.
    assert (H : pretty Program ParseProgram Prettier existingCode maxLineLength = err).
    { unfold pretty. now rewrite Hp. }
    split; [exact H|]. unfold prettyCode. rewrite H, (colon_is_no_space err Hpre).
    reflexivity.
  - vm_compute. reflexivity.
  - intros H. vm_compute in H. discriminate.
Qed.

Lemma parse_failure_is_merged_witness :
  prettyCodeFailing "Parsing failed:" "x" 80
  = merge "x" "Parsing failed:" (Lex "x") (Lex "Parsing failed:").
Proof.
  apply (proj1 parse_failure_is_merged Lex string
           (fun _ => inr "Parsing failed:") (fun program _ _ => program)
           "x" 80 "Parsing failed:").
  - reflexivity.
  - reflexivity.
Defined.

(** ** The spacing buffer *)

Lemma allBytes_app (f : ascii -> bool) (s t : string) :
  allBytes f (s ++ t) = allBytes f s && allBytes f t.
Proof.
  induction s as [|a s IH]; simpl; [reflexivity|].
  now rewrite IH, andb_assoc.
Qed.

Lemma layoutOnly_cons (a : ascii) (s : string) :
  layoutOnly (String a s) = true ->
  (a = " "%char \/ a = strings.newline) /\ layoutOnly s = true.
Proof.
  unfold layoutOnly. simpl. intros H. apply andb_true_iff in H. destruct H as [Ha Hs].
  split; [|exact Hs]. apply orb_true_iff in Ha.
  destruct Ha as [Ha|Ha]; apply Ascii.eqb_eq in Ha; auto.
Qed.

(** What line 309 and line 310 take apart, line 320 puts together again. *)
Lemma spacing_restored (sp : string) :
  layoutOnly sp = true ->
  (-1 <= strings.LastIndex sp strings.newline < strings.len sp)
  /\ (strings.LastIndex sp strings.newline = -1 -> strings.TrimRight sp " " = "")
  /\ (0 <= strings.LastIndex sp strings.newline -> strings.TrimRight sp " " <> "")
  /\ strings.TrimRight sp " "
     ++ strings.repeat " " (Z.to_nat (strings.len sp - (strings.LastIndex sp strings.newline + 1)))
     = sp.
Proof.
  induction sp as [|a r IH]; intros Hl.
  - cbn. repeat split; try lia; intros; try reflexivity.
  - apply layoutOnly_cons in Hl. destruct Hl as (Ha & Hr).
    destruct (IH Hr) as (Hrange & Hnone & Hsome & Heq). clear IH.
    assert (Hlen : strings.len (String a r) = strings.len r + 1).
    { unfold strings.len. simpl String.length. lia. }
    rewrite Hlen. cbn [strings.LastIndex strings.TrimRight].
    destruct (0 <=? strings.LastIndex r strings.newline) eqn:E.
    + apply Z.leb_le in E. specialize (Hsome E).
      destruct (strings.TrimRight r " ") as [|b t] eqn:Et; [congruence|].
      repeat split; try lia; try discriminate.
      replace (strings.len r + 1 - (strings.LastIndex r strings.newline + 1 + 1))
        with (strings.len r - (strings.LastIndex r strings.newline + 1)) by lia.
      exact (f_equal (String a) Heq).
    + apply Z.leb_gt in E.
      assert (Hm : strings.LastIndex r strings.newline = -1) by lia.
      specialize (Hnone Hm). rewrite Hnone in *. rewrite Hm in Heq.
      replace (strings.len r - (-1 + 1)) with (strings.len r) in Heq by lia.
      cbn [String.append] in Heq.
      destruct Ha as [-> | ->].
      * cbn. repeat split; try lia; try discriminate.
        replace (strings.len r + 1 - 0) with (Z.succ (strings.len r)) by lia.
        rewrite Z2Nat.inj_succ by (unfold strings.len; lia).
        cbn. now rewrite Heq.
      * cbn. repeat split; try lia; try discriminate.
        replace (strings.len r + 1 - 1) with (strings.len r) by lia.
        now rewrite Heq.
Qed.

Lemma emitToken_plain (prettyText : string) (newTok : Token) (res sp x : string) :
  layoutOnly sp = true ->
  extractTokenText prettyText newTok = Some x ->
  emitToken prettyText newTok res sp "" = Some (res ++ sp ++ x).
Proof.
  intros Hl Hx. destruct (spacing_restored sp Hl) as (Hrange & _ & _ & Heq).
  unfold emitToken. cbn [strings.len String.length Z.of_nat Z.ltb Z.compare].
  unfold strings.Repeat.
  destruct (0 <=? _) eqn:E; [|apply Z.leb_gt in E; lia].
  rewrite Hx. f_equal. rewrite !append_assoc. f_equal.
  rewrite <- append_assoc. now rewrite Heq.
Qed.

(** ** The merge of an original without comments *)

Section CommentFree.

Variables existingCode prettyText : string.

Lemma checkComment_other (t : Token) (res sp com : string) :
  isComment t = false -> checkComment existingCode t res sp com = Some (res, com).
Proof.
  unfold isComment, checkComment. intros H. apply orb_false_iff in H.
  destruct H as [-> ->]. reflexivity.
Qed.

Lemma resync_no_comments (newTok : Token) (e : Position) (olds : list Token) :
  forall res sp com,
    noComments olds = true ->
    exists oldTok rest,
      resync existingCode newTok e olds res sp com = Some (oldTok, rest, res, com)
      /\ noComments rest = true.
Proof.
  induction olds as [|t olds IH]; intros res sp com Hn; simpl.
  - eauto.
  - simpl in Hn. apply andb_true_iff in Hn. destruct Hn as [Ht Hn].
    apply negb_true_iff in Ht. rewrite (checkComment_other _ _ _ _ Ht).
    destruct (TokenType_eqb (Type_ t) (Type_ newTok) || Is t TokenEOF); eauto.
Qed.

(** The iteration that finds the new stream at its end, the old one
    holding no comment, returns the result and the pending comments. *)
Lemma step_end_comment_free (st : State) :
  pending (newTokens st) = [] ->
  noComments (pending (oldTokens st)) = true ->
  exists st', step existingCode prettyText st = Some (Break st')
              /\ result st' = result st ++ comment st.
Proof.
  intros Hnil Hold.
  destruct (pull st) as [newTok news] eqn:Hp.
  assert (He : Is newTok TokenEOF = true).
  { unfold pull in Hp. destruct (negb (Is (newToken st) TokenEOF)) eqn:E.
    - unfold Next in Hp. rewrite Hnil in Hp. injection Hp as <- _. reflexivity.
    - injection Hp as <- _. now apply negb_false_iff in E. }
  unfold step. rewrite Hp.
  rewrite (Is_other _ _ TokenSpace He), (Is_other _ _ TokenBraceOpen He) by discriminate.
  assert (Hc : slices.Contains ignoredTokenTypes (Type_ newTok) = false).
  { apply Is_eq in He. rewrite He. reflexivity. }
  rewrite Hc.
  destruct (negb (Is (oldToken st) TokenEOF)) eqn:Eo.
  - destruct (resync_no_comments newTok (inputEnd (oldTokens st)) _
                (result st) (spaces st) (comment st) Hold) as (oldTok & rest & Hr & _).
    rewrite Hr. apply resync_stops in Hr.
    assert (Ho : Is oldTok TokenEOF = true).
    { destruct Hr as [Hr|Hr]; [|exact Hr]. apply Is_eq. apply Is_eq in He. congruence. }
    rewrite Ho, He. simpl. eauto.
  - apply negb_false_iff in Eo. rewrite Eo, He. simpl. eauto.
Qed.

End CommentFree.

Lemma pull_cons (st : State) (t : Token) (rest : list Token) :
  Is (newToken st) TokenEOF = false ->
  pending (newTokens st) = t :: rest ->
  pull st = (t, mkStream rest (inputEnd (newTokens st))).
Proof.
  intros He Hp. unfold pull, Next. now rewrite He, Hp.
Qed.

Lemma texts_cons (text : string) (t : Token) (rest : list Token) (xs : list string) :
  texts text (t :: rest) = Some xs ->
  exists x xr, extractTokenText text t = Some x /\ texts text rest = Some xr /\ xs = x :: xr.
Proof.
  simpl. destruct (extractTokenText text t) as [x|]; [|discriminate].
  destruct (texts text rest) as [xr|]; [|discriminate].
  intros H. injection H as <-. eauto.
Qed.

Lemma texts_length (text : string) (toks : list Token) :
  forall xs, texts text toks = Some xs -> List.length xs = List.length toks.
Proof.
  induction toks as [|t rest IH]; intros xs H.
  - injection H as <-. reflexivity.
  - apply texts_cons in H. destruct H as (x & xr & _ & Hr & ->).
    simpl. f_equal. now apply IH.
Qed.

(** The rest of the loop, by the induction hypothesis [IH] at the state
    the iteration leaves, with the new tokens [toks] and their texts [xs]
    still to come. *)
Ltac rest_of_loop IH toks xs :=
  rewrite (IH _ toks xs);
  cbn [result spaces newTokens pending newToken comment oldTokens];
  try assumption; try reflexivity; try (simpl in *; lia); auto.

Section CommentFreeLoop.

Variables existingCode prettyText : string.

Lemma loop_comment_free (fuel : nat) :
  forall st toks xs,
    (List.length toks < fuel)%nat ->
    pending (newTokens st) = toks ->
    Is (newToken st) TokenEOF = false ->
    comment st = "" ->
    noComments (pending (oldTokens st)) = true ->
    noEOF toks = true ->
    texts prettyText toks = Some xs ->
    plainLayout prettyText toks = true ->
    layoutOnly (spaces st) = true ->
    (spaces st = "" \/ match toks with t :: _ => Is t TokenBraceOpen = false | [] => True end) ->
    loop existingCode prettyText fuel st = Returned (result st ++ kept toks xs (spaces st)).
Proof.
  induction fuel as [|fuel IH];
    intros st toks xs Hfuel Hpend Hnew Hcom Hold Hneof Htexts Hplain Hsp Hbrace; [lia|].
  cbn [loop]. destruct toks as [|t rest].
  { destruct (step_end_comment_free existingCode prettyText st Hpend Hold) as (st' & -> & ->).
    now rewrite Hcom. }
  apply texts_cons in Htexts. destruct Htexts as (x & xr & Hx & Hxr & ->).
  cbn [noEOF forallb] in Hneof. apply andb_true_iff in Hneof.
  destruct Hneof as [Hteof Hneof]. apply negb_true_iff in Hteof. fold (noEOF rest) in Hneof.
  cbn [plainLayout] in Hplain. rewrite Hx in Hplain. apply andb_true_iff in Hplain.
  destruct Hplain as [Hshape Hplain].
  simpl in Hfuel.
  unfold step. rewrite (pull_cons st t rest Hnew Hpend). cbn [kept].
  destruct (Is t TokenSpace) eqn:Ets.
  { (* whitespace *)
    rewrite Hx. apply andb_true_iff in Hshape. destruct Hshape as [Hlx Hnext].
    rewrite (IH _ rest xr); cbn [result spaces newTokens pending newToken comment oldTokens];
      try assumption; try reflexivity; try lia.
    - unfold layoutOnly in *. now rewrite allBytes_app, Hsp, Hlx.
    - right. destruct rest as [|t' rest']; [exact I|]. now apply negb_true_iff in Hnext. }
  destruct (Is t TokenBraceOpen) eqn:Etb.
  { (* open brace: nothing is pending *)
    destruct Hbrace as [Hempty|Hno]; [|congruence].
    apply String.eqb_eq in Hshape. subst x. rewrite Hempty.
    unfold Cursor, Revert, Next. cbn [pending].
    destruct rest as [|t2 r2].
    - cbn [eofToken Type_ TokenType_eqb]. cbn.
      rest_of_loop IH (@nil Token) (@nil string).
      cbn. now rewrite append_nil_r.
    - destruct (TokenType_eqb (Type_ t2) TokenBraceClose) eqn:Ec.
      + apply texts_cons in Hxr. destruct Hxr as (x2 & xr2 & Hx2 & Hxr2 & ->).
        cbn [plainLayout] in Hplain. rewrite Hx2 in Hplain.
        apply andb_true_iff in Hplain. destruct Hplain as [Hshape2 Hplain2].
        assert (Hc : Is t2 TokenBraceClose = true) by exact Ec.
        rewrite (Is_other _ _ TokenSpace Hc), (Is_other _ _ TokenBraceOpen Hc), Hc in Hshape2
          by discriminate.
        apply String.eqb_eq in Hshape2. subst x2.
        cbn [noEOF forallb] in Hneof. apply andb_true_iff in Hneof. destruct Hneof as [_ Hneof].
        rest_of_loop IH r2 xr2.
        cbn [kept]. rewrite (Is_other _ _ TokenSpace Hc) by discriminate.
        cbn. now rewrite !append_assoc.
      + rest_of_loop IH (t2 :: r2) xr.
        cbn. now rewrite !append_assoc. }
  destruct (slices.Contains ignoredTokenTypes (Type_ t)) eqn:Eig.
  { (* parenthesis or bracket *)
    rewrite Hx.
    rest_of_loop IH rest xr.
    now rewrite !append_assoc. }
  (* a token looked up in the old stream *)
  assert (Hsync : exists oldTok olds,
             (if negb (Is (oldToken st) TokenEOF)
              then resync existingCode t (inputEnd (oldTokens st)) (pending (oldTokens st))
                          (result st) (spaces st) (comment st)
              else Some (oldToken st, pending (oldTokens st), result st, comment st))
             = Some (oldTok, olds, result st, comment st)
             /\ noComments olds = true).
  { destruct (negb (Is (oldToken st) TokenEOF)).
    - apply resync_no_comments. exact Hold.
    - eauto. }
  destruct Hsync as (oldTok & olds & -> & Holds).
  rewrite Hteof, andb_false_r, Hcom.
  rewrite (emitToken_plain prettyText t (result st) (spaces st) x Hsp Hx).
  rest_of_loop IH rest xr.
  now rewrite !append_assoc.
Qed.

(** The merge of an original without comments with a rendered text in
    plain layout gives the rendered tokens' texts without the whitespace
    that follows the last of them. *)
Lemma merge_comment_free (oldStream newStream : TokenStream) (xs : list string) :
  noComments (pending oldStream) = true ->
  noEOF (pending newStream) = true ->
  texts prettyText (pending newStream) = Some xs ->
  plainLayout prettyText (pending newStream) = true ->
  merge existingCode prettyText oldStream newStream
  = Returned (kept (pending newStream) xs "").
Proof.
  intros Hold Hneof Htexts Hplain. unfold merge.
  rewrite (loop_comment_free _ _ (pending newStream) xs); try assumption;
    try reflexivity; auto.
Qed.

End CommentFreeLoop.

Lemma kept_all (toks : list Token) :
  forall xs sp,
    List.length xs = List.length toks ->
    endsInCode toks = true ->
    (toks = [] -> sp = "") ->
    kept toks xs sp = sp ++ concat xs.
Proof.
  induction toks as [|t rest IH]; intros xs sp Hlen Hend Hsp.
  - destruct xs; [|discriminate]. rewrite (Hsp eq_refl). reflexivity.
  - destruct xs as [|x xr]; [discriminate|]. injection Hlen as Hlen.
    cbn [kept concat fold_right]. fold (concat xr).
    destruct (Is t TokenSpace) eqn:Es.
    + destruct rest as [|t' rest'].
      * simpl in Hend. rewrite Es in Hend. discriminate.
      * rewrite IH; [now rewrite append_assoc | exact Hlen | exact Hend | discriminate].
    + rewrite IH; [reflexivity | exact Hlen | | reflexivity].
      destruct rest; [reflexivity | exact Hend].
Qed.

Lemma kept_trailing (body trailing : list Token) :
  forall xb xw sp,
    List.length xb = List.length body ->
    allSpace trailing = true ->
    kept (body ++ trailing) (xb ++ xw) sp = kept body xb sp.
Proof.
  induction body as [|t rest IH]; intros xb xw sp Hlen Hsp.
  - destruct xb; [|discriminate]. simpl. clear Hlen. revert xw sp.
    induction trailing as [|w ws IHw]; intros xw sp; [reflexivity|].
    simpl in Hsp. apply andb_true_iff in Hsp. destruct Hsp as [Hw Hws].
    destruct xw as [|x xw]; [reflexivity|]. cbn [kept]. rewrite Hw. now apply IHw.
  - destruct xb as [|x xb]; [discriminate|]. injection Hlen as Hlen.
    cbn [app kept]. destruct (Is t TokenSpace); rewrite IH; auto.
Qed.

Lemma tiles_concat (text : string) (toks : list Token) :
  tiles text toks = true -> exists xs, texts text toks = Some xs /\ concat xs = text.
Proof.
  unfold tiles. destruct (texts text toks) as [xs|]; [|discriminate].
  intros H. apply String.eqb_eq in H. eauto.
Qed.

(** When the original holds no comment token, and the rendered text is
    covered by its tokens, none of them an end-of-input token, has its
    whitespace made of spaces and line feeds, has no open brace directly
    after whitespace and does not end in whitespace, [prettyCode] returns
    the rendered text as it is. *)
Lemma comment_free_passthrough :
  forall (Lex : string -> TokenStream) (Program : Type)
         (ParseProgram : string -> Program + string)
         (Prettier : Program -> Z -> string -> string)
         existingCode maxLineLength,
    let rendered := pretty Program ParseProgram Prettier existingCode maxLineLength in
    noComments (pending (Lex existingCode)) = true ->
    noEOF (pending (Lex rendered)) = true ->
    tiles rendered (pending (Lex rendered)) = true ->
    plainLayout rendered (pending (Lex rendered)) = true ->
    endsInCode (pending (Lex rendered)) = true ->
    prettyCode Lex Program ParseProgram Prettier existingCode maxLineLength
    = Returned rendered.
Proof.
  intros Lex Program ParseProgram Prettier existingCode maxLineLength rendered
         Hold Hneof Htiles Hplain Hend.
  unfold prettyCode. fold rendered.
  destruct (strings.HasPrefix rendered "Parsing failed "); [reflexivity|].
  destruct (tiles_concat _ _ Htiles) as (xs & Hxs & Hcat).
  rewrite (merge_comment_free existingCode rendered _ _ xs Hold Hneof Hxs Hplain).
  rewrite kept_all; [now rewrite Hcat | now apply texts_length in Hxs | exact Hend | reflexivity].
Qed.

Lemma comment_free_passthrough_witness :
  prettyCodeRendering "let x = f(1, 2)" "let x=f(1,2)" 80 = Returned "let x = f(1, 2)".
Proof.
  apply (comment_free_passthrough Lex string
           (fun _ => inl "let x = f(1, 2)") (fun program _ _ => program)
           "let x=f(1,2)" 80); vm_compute; reflexivity.
Defined.

(** C2 (defect of the code).  The branch of the open brace writes the
    brace and leaves the spacing buffer as it is, where the branch of the
    parentheses and brackets next to it writes the spacing buffer first
    and empties it.  The whitespace the renderer puts before an open brace
    is therefore written after the brace, or not at all.  For the function
    [pub fun main()] with the body [return], which holds no comment and
    stands in its rendered layout, [prettyCode] returns the text with the
    space after the brace, at the end of the line; the earlier revision,
    which copies the braces like the parentheses, returns the rendered
    text. *)
Theorem comment_free_text_altered :
  (forall existingCode prettyText st newTok news,
      pull st = (newTok, news) ->
      Is newTok TokenBraceOpen = true ->
      exists st',
        step existingCode prettyText st = Some (Continue st')
        /\ spaces st' = spaces st
        /\ (result st' = result st ++ "{}" \/ result st' = result st ++ "{"))
  /\ noComments
       (pending (Lex ("pub fun main() {" ++ strings.nl ++ "    return" ++ strings.nl ++ "}")))
     = true
  /\ prettyCodeRendering
       ("pub fun main() {" ++ strings.nl ++ "    return" ++ strings.nl ++ "}")
       ("pub fun main() {" ++ strings.nl ++ "    return" ++ strings.nl ++ "}") 80
     = Returned ("pub fun main(){ " ++ strings.nl ++ "    return" ++ strings.nl ++ "}")
  /\ prettyCodeRendering
       ("pub fun main() {" ++ strings.nl ++ "    return" ++ strings.nl ++ "}")
       ("pub fun main() {" ++ strings.nl ++ "    return" ++ strings.nl ++ "}") 80
     <> Returned ("pub fun main() {" ++ strings.nl ++ "    return" ++ strings.nl ++ "}")
  /\ part_000.reconcile
       ("pub fun main() {" ++ strings.nl ++ "    return" ++ strings.nl ++ "}")
       ("pub fun main() {" ++ strings.nl ++ "    return" ++ strings.nl ++ "}")
     = Returned ("pub fun main() {" ++ strings.nl ++ "    return" ++ strings.nl ++ "}").
Proof.
  split; [|repeat split; try (vm_compute; reflexivity)].
  - intros existingCode prettyText st newTok news Hp Hb.
    assert (Hs : Is newTok TokenSpace = false) by (apply (Is_other _ _ _ Hb); discriminate).
    unfold step. rewrite Hp, Hs, Hb. destruct (Next news) as [la news'].
    destruct (TokenType_eqb (Type_ la) TokenBraceClose);
      (eexists; split; [reflexivity|]); simpl; auto.
  - intros H. vm_compute in H. discriminate.
Qed.

Lemma comment_free_text_altered_witness :
  exists st',
    step "f {" "f {" (stateAfter "f {" "f {" 2) = Some (Continue st')
    /\ spaces st' = spaces (stateAfter "f {" "f {" 2)
    /\ (result st' = result (stateAfter "f {" "f {" 2) ++ "{}"
        \/ result st' = result (stateAfter "f {" "f {" 2) ++ "{").
Proof.
  apply (proj1 comment_free_text_altered "f {" "f {" (stateAfter "f {" "f {" 2)
           (fst (pull (stateAfter "f {" "f {" 2)))
           (snd (pull (stateAfter "f {" "f {" 2)))).
  - reflexivity.
  - vm_compute. reflexivity.
Defined.

(** A text without comments that the renderer leaves as it is, that is
    covered by its tokens, none of them an end-of-input token, has its
    whitespace made of spaces and line feeds, has no open brace directly
    after whitespace and does not end in whitespace, is returned by
    [prettyCode] as it is. *)
Lemma canonical_idempotent :
  forall (Lex : string -> TokenStream) (Program : Type)
         (ParseProgram : string -> Program + string)
         (Prettier : Program -> Z -> string -> string)
         r maxLineLength,
    pretty Program ParseProgram Prettier r maxLineLength = r ->
    noComments (pending (Lex r)) = true ->
    noEOF (pending (Lex r)) = true ->
    tiles r (pending (Lex r)) = true ->
    plainLayout r (pending (Lex r)) = true ->
    endsInCode (pending (Lex r)) = true ->
    prettyCode Lex Program ParseProgram Prettier r maxLineLength = Returned r.
Proof.
  intros Lex Program ParseProgram Prettier r maxLineLength Hr Hold Hneof Htiles Hplain Hend.
  unfold prettyCode. rewrite Hr.
  destruct (strings.HasPrefix r "Parsing failed "); [reflexivity|].
  destruct (tiles_concat _ _ Htiles) as (xs & Hxs & Hcat).
  rewrite (merge_comment_free r r _ _ xs Hold Hneof Hxs Hplain).
  rewrite kept_all; [now rewrite Hcat | now apply texts_length in Hxs | exact Hend | reflexivity].
Qed.

Lemma canonical_idempotent_witness :
  prettyCodeRendering ("import Crypto" ++ strings.nl ++ strings.nl ++ "let x = f(1, [2])")
                      ("import Crypto" ++ strings.nl ++ strings.nl ++ "let x = f(1, [2])") 80
  = Returned ("import Crypto" ++ strings.nl ++ strings.nl ++ "let x = f(1, [2])").
Proof.
  apply (canonical_idempotent Lex string
           (fun _ => inl ("import Crypto" ++ strings.nl ++ strings.nl ++ "let x = f(1, [2])"))
           (fun program _ _ => program)
           ("import Crypto" ++ strings.nl ++ strings.nl ++ "let x = f(1, [2])") 80);
    vm_compute; reflexivity.
Defined.

(** C3 (defect of the code).  The canonical text [pub fun f() {}], which
    holds no comment and which the renderer leaves as it is, does not come
    back unchanged: the branch of the open brace writes [{}] without the
    space pending in the spacing buffer, which is then dropped at the end
    of the input.  The earlier revision, which copies the braces like the
    parentheses and so writes the spacing buffer before them, returns the
    text unchanged. *)
Theorem canonical_text_altered :
  noComments (pending (Lex "pub fun f() {}")) = true
  /\ pretty string (fun _ => inl "pub fun f() {}") (fun program _ _ => program)
            "pub fun f() {}" 80
     = "pub fun f() {}"
  /\ prettyCodeRendering "pub fun f() {}" "pub fun f() {}" 80 = Returned "pub fun f(){}"
  /\ prettyCodeRendering "pub fun f() {}" "pub fun f() {}" 80 <> Returned "pub fun f() {}"
  /\ part_000.reconcile "pub fun f() {}" "pub fun f() {}" = Returned "pub fun f() {}".
Proof.
  repeat split; try (vm_compute; reflexivity).
  intros H. vm_compute in H. discriminate.
Qed.

(** ** Whitespace that no token follows *)

Section TrailingSpace.

Variables existingCode prettyText : string.

Lemma checkComment_flag (t : Token) (res sp1 sp2 com : string) :
  doubleLineBreak sp1 = doubleLineBreak sp2 ->
  checkComment existingCode t res sp1 com = checkComment existingCode t res sp2 com.
Proof.
  intros H. unfold checkComment, lineComment, checkPreviousLine.
  unfold doubleLineBreak in H. now rewrite H.
Qed.

Lemma resync_ext (n1 n2 : Token) (e : Position) (olds : list Token) :
  forall res sp1 sp2 com,
    Type_ n1 = Type_ n2 ->
    doubleLineBreak sp1 = doubleLineBreak sp2 ->
    resync existingCode n1 e olds res sp1 com = resync existingCode n2 e olds res sp2 com.
Proof.
  induction olds as [|t olds IH]; intros res sp1 sp2 com Hty Hfl; simpl; [reflexivity|].
  rewrite (checkComment_flag t res sp1 sp2 com Hfl), Hty.
  destruct (checkComment existingCode t res sp2 com) as [[r c]|]; [|reflexivity].
  destruct (TokenType_eqb (Type_ t) (Type_ n2) || Is t TokenEOF); [reflexivity|].
  now apply IH.
Qed.

(** With the new stream at its end, the outcome depends on the spacing
    buffer through the test of line 252 only. *)
Lemma final_outcome_eq (s1 s2 : State) :
  pending (newTokens s1) = [] ->
  pending (newTokens s2) = [] ->
  Is (newToken s1) TokenEOF = false ->
  Is (newToken s2) TokenEOF = false ->
  oldTokens s1 = oldTokens s2 ->
  oldToken s1 = oldToken s2 ->
  result s1 = result s2 ->
  comment s1 = comment s2 ->
  doubleLineBreak (spaces s1) = doubleLineBreak (spaces s2) ->
  loop existingCode prettyText 1 s1 = loop existingCode prettyText 1 s2.
Proof.
  intros Hp1 Hp2 He1 He2 Hos Hot Hres Hcom Hfl.
  cbn [loop]. unfold step, pull, Next. rewrite He1, He2, Hp1, Hp2. cbn [negb].
  cbn [eofToken Is Type_ TokenType_eqb slices.Contains ignoredTokenTypes existsb].
  cbn. rewrite <- Hos, <- Hot, <- Hres, <- Hcom.
  destruct (Is (oldToken s1) TokenEOF) eqn:Eo; cbn [negb].
  - cbv beta iota. rewrite Eo. reflexivity.
  - rewrite (resync_ext
               {| Type_ := TokenEOF; StartPos := inputEnd (newTokens s1);
                  EndPos := inputEnd (newTokens s1) |}
               {| Type_ := TokenEOF; StartPos := inputEnd (newTokens s2);
                  EndPos := inputEnd (newTokens s2) |}
               _ _ _ (spaces s1) (spaces s2) _ eq_refl Hfl).
    destruct (resync _ _ _ _ _ _ _) as [[[[oldTok olds] res] com]|] eqn:Er; [|reflexivity].
    apply resync_stops in Er. cbn [Type_] in Er.
    assert (Ho : Is oldTok TokenEOF = true).
    { destruct Er as [Er|Er]; [now apply Is_eq | exact Er]. }
    rewrite Ho. reflexivity.
Qed.

Lemma loop_trailing_space (ws : list Token) :
  forall st xw sp',
    pending (newTokens st) = ws ->
    allSpace ws = true ->
    texts prettyText ws = Some xw ->
    Is (newToken st) TokenEOF = false ->
    doubleLineBreak sp' = doubleLineBreak (spaces st ++ concat xw) ->
    loop existingCode prettyText (S (List.length ws)) st
    = loop existingCode prettyText 1 (atEnd st sp').
Proof.
  induction ws as [|w ws IH]; intros st xw sp' Hp Hsp Hx He Hfl.
  - injection Hx as <-. simpl in Hfl. rewrite append_nil_r in Hfl.
    apply final_outcome_eq; try reflexivity; try assumption. now symmetry.
  - apply texts_cons in Hx. destruct Hx as (x & xr & Hx & Hxr & ->).
    simpl in Hsp. apply andb_true_iff in Hsp. destruct Hsp as [Hw Hws].
    cbn [List.length]. change (loop existingCode prettyText (S (S (List.length ws))) st)
      with (match step existingCode prettyText st with
            | None => Panicked
            | Some (Break st') => Returned (result st')
            | Some (Continue st') => loop existingCode prettyText (S (List.length ws)) st'
            end).
    unfold step. rewrite (pull_cons st w ws He Hp), Hw, Hx.
    rewrite (IH _ xr sp'); cbn [newTokens pending newToken spaces]; try assumption; try reflexivity.
    + apply final_outcome_eq; try reflexivity; try assumption.
      apply (Is_other _ _ _ Hw). discriminate.
    + apply (Is_other _ _ _ Hw). discriminate.
    + rewrite Hfl. cbn [concat fold_right]. now rewrite append_assoc.
Qed.

End TrailingSpace.

Lemma texts_app (text : string) (body trailing : list Token) :
  forall xb xw,
    texts text body = Some xb ->
    texts text trailing = Some xw ->
    texts text (body ++ trailing) = Some (xb ++ xw)%list.
Proof.
  induction body as [|t rest IH]; intros xb xw Hb Hw.
  - injection Hb as <-. exact Hw.
  - apply texts_cons in Hb. destruct Hb as (x & xr & Hx & Hxr & ->).
    simpl. rewrite Hx, (IH _ _ Hxr Hw). reflexivity.
Qed.



(** ** Comments are kept *)

Lemma Substring_trans (a b c : string) : Substring a b -> Substring b c -> Substring a c.
Proof.
  intros (p1 & q1 & ->) (p2 & q2 & ->). exists (p2 ++ p1), (q1 ++ q2).
  now rewrite !append_assoc.
Qed.

Lemma SplitAfter_nonempty (s : string) : strings.SplitAfter s strings.newline <> [].
Proof.
  destruct s as [|a s]; simpl; [discriminate|].
  destruct (Ascii.eqb a strings.newline); [discriminate|].
  destruct (strings.SplitAfter s strings.newline); discriminate.
Qed.

(** A text without a line feed that begins [s] begins the first line of [s]. *)
Lemma SplitAfter_prefix (c post : string) :
  oneLine c = true ->
  exists h t, strings.SplitAfter (c ++ post) strings.newline = (c ++ h) :: t.
Proof.
  induction c as [|a c IH]; intros Hc.
  - simpl. destruct (strings.SplitAfter post strings.newline) as [|h t] eqn:E.
    + now apply SplitAfter_nonempty in E.
    + eauto.
  - unfold oneLine in Hc. simpl in Hc. apply andb_true_iff in Hc. destruct Hc as [Ha Hc].
    apply negb_true_iff in Ha. destruct (IH Hc) as (h & t & E).
    simpl. rewrite Ha, E. eauto.
Qed.

(** A text without a line feed that occurs in [s] occurs in a line of [s]. *)
Lemma SplitAfter_line (c s : string) :
  oneLine c = true ->
  Substring c s ->
  exists l, In l (strings.SplitAfter s strings.newline) /\ Substring c l.
Proof.
  intros Hc (pre & post & ->). induction pre as [|a pre IH].
  - destruct (SplitAfter_prefix c post Hc) as (h & t & E). simpl. rewrite E.
    exists (c ++ h). split; [now left|]. exists "", h. reflexivity.
  - destruct IH as (l & Hin & Hsub). simpl.
    destruct (Ascii.eqb a strings.newline).
    + exists l. split; [now right | exact Hsub].
    + destruct (strings.SplitAfter (pre ++ c ++ post) strings.newline) as [|h t];
        [contradiction|].
      destruct Hin as [<-|Hin].
      * exists (String a h). split; [now left | now apply Substring_cons].
      * exists l. split; [now right | exact Hsub].
Qed.

Lemma dropLastEmpty_keeps (l : string) (lines : list string) :
  In l lines -> l <> "" -> In l (indent.dropLastEmpty lines).
Proof.
  induction lines as [|x rest IH]; intros Hin Hne; [contradiction|].
  destruct rest as [|y rest'].
  - destruct Hin as [->|[]]. simpl.
    destruct (String.eqb l "") eqn:E; [apply String.eqb_eq in E; contradiction | now left].
  - change (indent.dropLastEmpty (x :: y :: rest'))
      with (x :: indent.dropLastEmpty (y :: rest')).
    destruct Hin as [->|Hin]; [now left | right; now apply IH].
Qed.

Lemma Join_keeps (l sep : string) (lines : list string) :
  In l lines -> Substring l (strings.Join lines sep).
Proof.
  induction lines as [|x rest IH]; intros Hin; [contradiction|].
  destruct rest as [|y rest'].
  - destruct Hin as [->|[]]. apply Substring_refl.
  - change (strings.Join (x :: y :: rest') sep)
      with (x ++ sep ++ strings.Join (y :: rest') sep).
    destruct Hin as [->|Hin].
    + apply Substring_app_l, Substring_refl.
    + apply Substring_app_r, Substring_app_r. now apply IH.
Qed.

(** Indenting the comment buffer keeps what is written on one line. *)
Lemma indent_keeps_line (padding s c : string) :
  oneLine c = true ->
  Substring c s ->
  Substring c (indent.String_ padding s).
Proof.
  intros Hc Hs. unfold indent.String_.
  destruct (String.eqb padding "" || String.eqb s ""); [exact Hs|].
  destruct c as [|a c']; [apply Substring_nil|].
  destruct (SplitAfter_line _ _ Hc Hs) as (l & Hin & Hsub).
  apply (Substring_trans _ l); [exact Hsub|].
  apply Join_keeps. right. apply dropLastEmpty_keeps; [exact Hin|].
  intros ->. destruct Hsub as (p & q & H). destruct p; discriminate.
Qed.

Section Conservation.

Variables existingCode prettyText : string.

(** The comment [full] of the old token [tok], and a part [c] of it that
    holds no line feed. *)
Variable tok : Token.
Variables full c : string.
Hypothesis tok_comment : commentText existingCode tok = Some full.
Hypothesis c_part : Substring c full.
Hypothesis c_oneLine : oneLine c = true.

Lemma checkPreviousLine_extends b oldLine t sp com com' :
  checkPreviousLine existingCode b oldLine t sp com = Some com' ->
  exists suffix, com' = com ++ suffix.
Proof.
  unfold checkPreviousLine. intros H.
  repeat match type of H with
         | (if ?b then _ else _) = _ => destruct b
         | match ?x with Some _ => _ | None => _ end = _ => destruct x; [|discriminate]
         end;
    injection H as <-; eauto using append_nil_r.
  all: exists ""; now rewrite append_nil_r.
Qed.

Lemma checkNextLine_extends b oldLine t com com' :
  checkNextLine existingCode b oldLine t com = Some com' ->
  exists suffix, com' = com ++ suffix.
Proof.
  unfold checkNextLine. intros H.
  repeat match type of H with
         | (if ?b then _ else _) = _ => destruct b
         | match ?x with Some _ => _ | None => _ end = _ => destruct x; [|discriminate]
         end;
    injection H as <-; eauto using append_nil_r.
  all: exists ""; now rewrite append_nil_r.
Qed.

(** What a line comment leaves in the two buffers. *)
Lemma lineComment_shape t res sp com res' com' :
  lineComment existingCode t res sp com = Some (res', com') ->
  exists before text after,
    extractTokenText existingCode t = Some text
    /\ ((res' = res ++ " " ++ ((com ++ before) ++ text) ++ after /\ com' = "")
        \/ (res' = res /\ com' = (((com ++ before) ++ text) ++ after) ++ strings.nl)).
Proof.
  unfold lineComment. intros H.
  destruct (checkTrailing existingCode t) as [[b oldLine]|]; [|discriminate].
  destruct (checkPreviousLine existingCode b oldLine t sp com) as [com1|] eqn:E1; [|discriminate].
  destruct (extractTokenText existingCode t) as [text|]; [|discriminate].
  destruct (checkNextLine existingCode b oldLine t (com1 ++ text)) as [com2|] eqn:E2;
    [|discriminate].
  apply checkPreviousLine_extends in E1. destruct E1 as (before & ->).
  apply checkNextLine_extends in E2. destruct E2 as (after & ->).
  exists before, text, after. split; [reflexivity|].
  destruct b; injection H as <- <-; auto.
Qed.

Lemma blockComment_shape t com com' :
  blockComment existingCode t com = Some com' ->
  exists text after,
    extractTokenText existingCode t = Some text
    /\ com' = (com ++ "/*" ++ text ++ "*/") ++ after.
Proof.
  unfold blockComment. intros H.
  destruct (extractTokenText existingCode t) as [text|]; [|discriminate].
  exists text. destruct (Line (StartPos t) <? Line (EndPos t)); injection H as <-.
  - eauto.
  - exists "". now rewrite append_nil_r.
Qed.

Lemma checkComment_keeps t res sp com res' com' :
  checkComment existingCode t res sp com = Some (res', com') ->
  Seen c res com -> Seen c res' com'.
Proof.
  unfold checkComment, Seen. intros H Hseen.
  destruct (Is t TokenLineComment).
  - apply lineComment_shape in H.
    destruct H as (before & text & after & _ & [[-> ->] | [-> ->]]).
    + left. destruct Hseen as [Hs|Hs]; auto 8 with substring.
    + destruct Hseen as [Hs|Hs]; [now left | right]. auto 8 with substring.
  - destruct (Is t TokenBlockCommentContent).
    + destruct (blockComment existingCode t com) as [com1|] eqn:E; [|discriminate].
      injection H as <- <-. apply blockComment_shape in E.
      destruct E as (text & after & _ & ->).
      destruct Hseen as [Hs|Hs]; [now left | right]. auto with substring.
    + injection H as <- <-. exact Hseen.
Qed.

Lemma checkComment_records res sp com res' com' :
  checkComment existingCode tok res sp com = Some (res', com') ->
  Seen c res' com'.
Proof.
  pose proof tok_comment as Hc. pose proof c_part as Hp. unfold commentText in Hc.
  unfold checkComment, Seen. intros H.
  destruct (extractTokenText existingCode tok) as [x|] eqn:Ex; [|discriminate].
  destruct (Is tok TokenLineComment).
  - injection Hc as Hc. rewrite <- Hc in Hp. apply lineComment_shape in H.
    destruct H as (before & text & after & Hx & [[-> ->] | [-> ->]]);
      rewrite Ex in Hx; injection Hx as <-.
    + left. auto 8 with substring.
    + right. auto 8 with substring.
  - destruct (Is tok TokenBlockCommentContent); [|discriminate].
    injection Hc as Hc. rewrite <- Hc in Hp.
    destruct (blockComment existingCode tok com) as [com1|] eqn:E; [|discriminate].
    injection H as <- <-. apply blockComment_shape in E.
    destruct E as (text & after & Hx & ->). rewrite Ex in Hx. injection Hx as <-.
    right. auto 8 with substring.
Qed.

Lemma resync_keeps (newTok : Token) (e : Position) (olds : list Token) :
  forall res sp com oldTok rest res' com',
    resync existingCode newTok e olds res sp com = Some (oldTok, rest, res', com') ->
    noEOF olds = true ->
    (Seen c res com -> Seen c res' com')
    /\ (In tok olds -> Seen c res' com' \/ In tok rest)
    /\ noEOF rest = true
    /\ (Is oldTok TokenEOF = true -> rest = []).
Proof.
  induction olds as [|t olds IH]; intros res sp com oldTok rest res' com' H Hneof; simpl in H.
  - injection H as <- <- <- <-. repeat split; auto.
  - simpl in Hneof. apply andb_true_iff in Hneof. destruct Hneof as [Ht Hneof].
    apply negb_true_iff in Ht.
    destruct (checkComment existingCode t res sp com) as [[r1 c1]|] eqn:E; [|discriminate].
    rewrite Ht, orb_false_r in H.
    destruct (TokenType_eqb (Type_ t) (Type_ newTok)).
    + injection H as <- <- <- <-. split; [|split; [|split]].
      * now apply (checkComment_keeps _ _ _ _ _ _ E).
      * intros [Heq|Hin]; [subst t; left; now apply (checkComment_records _ _ _ _ _ E) | now right].
      * exact Hneof.
      * congruence.
    + destruct (IH _ _ _ _ _ _ _ H Hneof) as (Hk & Hin & Hn & He).
      split; [|split; [|split]]; try assumption.
      * intros Hs. apply Hk. now apply (checkComment_keeps _ _ _ _ _ _ E).
      * intros [Heq|Hi]; [subst t|now apply Hin].
        left. apply Hk. now apply (checkComment_records _ _ _ _ _ E).
Qed.

Lemma emitToken_keeps newTok res sp com res' :
  emitToken prettyText newTok res sp com = Some res' ->
  Seen c res com -> Substring c res'.
Proof.
  unfold emitToken, Seen. intros H Hseen.
  destruct (extractTokenText prettyText newTok) as [text|];
    [|destruct (if 0 <? strings.len com then _ else _); discriminate].
  destruct (0 <? strings.len com) eqn:El.
  - destruct (strings.Repeat " " (Column (StartPosition newTok))) as [padding|]; [|discriminate].
    injection H as <-. apply Substring_app_l, Substring_app_l.
    destruct Hseen as [Hs|Hs].
    + now apply Substring_app_l, Substring_app_l.
    + apply Substring_app_r. now apply indent_keeps_line.
  - destruct (strings.Repeat " " _) as [pad|]; [|discriminate].
    injection H as <-. apply Substring_app_l, Substring_app_l, Substring_app_l.
    destruct Hseen as [Hs|Hs]; [exact Hs|].
    destruct com; [|discriminate]. destruct Hs as (p & q & Hpq).
    destruct p; [|discriminate]. destruct c; [apply Substring_nil | discriminate].
Qed.

Lemma step_keeps (st : State) (f : Flow) :
  step existingCode prettyText st = Some f ->
  Kept tok c st ->
  match f with
  | Continue st' => Kept tok c st'
  | Break st' => Substring c (result st')
  end.
Proof.
  unfold step, Kept. intros H (Hneof & Hk).
  destruct (pull st) as [newTok news].
  destruct (Is newTok TokenSpace).
  { destruct (extractTokenText prettyText newTok); [|discriminate].
    injection H as <-. simpl. auto. }
  destruct (Is newTok TokenBraceOpen).
  { destruct (Next news) as [la news'].
    destruct (TokenType_eqb (Type_ la) TokenBraceClose); injection H as <-; simpl;
      (split; [exact Hneof|]);
      (destruct Hk as [[Hs|Hs]|Hk];
       [left; left; now apply Substring_app_l | left; now right | now right]). }
  destruct (slices.Contains ignoredTokenTypes (Type_ newTok)).
  { destruct (extractTokenText prettyText newTok); [|discriminate].
    injection H as <-. simpl. split; [exact Hneof|].
    destruct Hk as [[Hs|Hs]|Hk]; [|left; now right | now right].
    left. left. now apply Substring_app_l, Substring_app_l. }
  assert (Hsync : forall oldTok olds res com,
             (if negb (Is (oldToken st) TokenEOF)
              then resync existingCode newTok (inputEnd (oldTokens st))
                          (pending (oldTokens st)) (result st) (spaces st) (comment st)
              else Some (oldToken st, pending (oldTokens st), result st, comment st))
             = Some (oldTok, olds, res, com) ->
             noEOF olds = true
             /\ (Seen c res com \/ (In tok olds /\ Is oldTok TokenEOF = false))).
  { intros oldTok olds res com E. destruct (Is (oldToken st) TokenEOF) eqn:Eo; cbn [negb] in E.
    - injection E as <- <- <- <-. split; [exact Hneof|].
      destruct Hk as [Hs|[_ Hf]]; [now left | congruence].
    - destruct (resync_keeps _ _ _ _ _ _ _ _ _ _ E Hneof) as (Hkeep & Hin & Hn & He).
      split; [exact Hn|].
      destruct Hk as [Hs|[Hi _]]; [left; now apply Hkeep|].
      destruct (Hin Hi) as [Hs|Hr]; [now left|].
      right. split; [exact Hr|].
      destruct (Is oldTok TokenEOF); [|reflexivity].
      rewrite (He eq_refl) in Hr. contradiction. }
  destruct (if negb (Is (oldToken st) TokenEOF) then _ else _)
    as [[[[oldTok olds] res] com]|]; [|discriminate].
  destruct (Hsync _ _ _ _ eq_refl) as (Hn & Hk'). clear Hsync.
  destruct (Is oldTok TokenEOF && Is newTok TokenEOF) eqn:Eb.
  - injection H as <-. simpl. apply andb_true_iff in Eb. destruct Eb as [Eo _].
    destruct Hk' as [[Hs|Hs]|[_ Hf]]; [| |congruence].
    + now apply Substring_app_l.
    + now apply Substring_app_r.
  - destruct (emitToken prettyText newTok res (spaces st) com) as [res'|] eqn:Ee; [|discriminate].
    injection H as <-. simpl. split; [exact Hn|].
    destruct Hk' as [Hs|Hr]; [|now right].
    left. left. now apply (emitToken_keeps _ _ _ _ _ Ee).
Qed.

Lemma loop_keeps (fuel : nat) :
  forall st out,
    Kept tok c st ->
    loop existingCode prettyText fuel st = Returned out ->
    Substring c out.
Proof.
  induction fuel as [|fuel IH]; intros st out Hk H; [discriminate|].
  simpl in H. destruct (step existingCode prettyText st) as [[st'|st']|] eqn:Es;
    [| |discriminate].
  - apply (IH st'); [|exact H]. exact (step_keeps _ _ Es Hk).
  - injection H as <-. exact (step_keeps _ _ Es Hk).
Qed.

Lemma merge_keeps (oldStream newStream : TokenStream) (out : string) :
  noEOF (pending oldStream) = true ->
  In tok (pending oldStream) ->
  merge existingCode prettyText oldStream newStream = Returned out ->
  Substring c out.
Proof.
  intros Hneof Hin H.
  apply (loop_keeps (S (List.length (pending newStream))) (initial oldStream newStream) out);
    [|exact H].
  split; [exact Hneof|]. right. split; [exact Hin | reflexivity].
Qed.

End Conservation.

Lemma originalComment_text (original : string) (t : Token) (c : string) :
  originalComment original t = Some c ->
  commentText original t = Some c /\ Substring c original.
Proof.
  unfold originalComment, commentText. destruct (Is t TokenLineComment).
  - intros H. rewrite H. split; [reflexivity|].
    apply slice_some in H. destruct H as (_ & _ & _ & pre & post & -> & _). now exists pre, post.
  - destruct (Is t TokenBlockCommentContent); [|discriminate].
    destruct (extractTokenText original t) as [text|]; [|discriminate].
    destruct (strings.slice original _ _) as [whole|] eqn:Es; [|discriminate].
    destruct (String.eqb whole ("/*" ++ text ++ "*/")) eqn:E; [|discriminate].
    intros H. injection H as <-. apply String.eqb_eq in E. split; [now rewrite E|].
    apply slice_some in Es. destruct Es as (_ & _ & _ & pre & post & -> & _).
    now exists pre, post.
Qed.




(** * Further properties of the program *)

Import more.

(** ** The text of a token *)

(** [extractTokenText] panics exactly when the range of the token does not
    lie in the text: a start before the text, an end past it, or an end
    more than one byte before the start.  Otherwise it returns the piece
    of the text that begins at the start offset and has as many bytes as
    the inclusive range, none when the end is the byte before the start. *)
Theorem extractTokenText_bounds :
  forall text tok,
    (extractTokenText text tok = None <->
     ~ (0 <= Offset (StartPos tok)
        /\ Offset (StartPos tok) <= Offset (EndPos tok) + 1
        /\ Offset (EndPos tok) + 1 <= strings.len text))
    /\ (forall x,
           extractTokenText text tok = Some x ->
           exists pre post,
             text = pre ++ x ++ post
             /\ strings.len pre = Offset (StartPos tok)
             /\ strings.len x = Offset (EndPos tok) + 1 - Offset (StartPos tok)).
Proof.
  intros text tok. unfold extractTokenText. split.
  - apply slice_none.
  - intros x H. apply slice_some in H. tauto.
Qed.

(** ** The result only grows *)

Section AppendOnly.

Variables existingCode prettyText : string.

Lemma checkComment_extends t res sp com res' com' :
  checkComment existingCode t res sp com = Some (res', com') ->
  exists s, res' = res ++ s.
Proof.
  unfold checkComment. intros H. destruct (Is t TokenLineComment).
  - apply (lineComment_shape existingCode) in H.
    destruct H as (b & x & a & _ & [[-> _] | [-> _]]); eauto.
    exists "". now rewrite append_nil_r.
  - destruct (Is t TokenBlockCommentContent).
    + destruct (blockComment existingCode t com); [|discriminate].
      injection H as <- _. exists "". now rewrite append_nil_r.
    + injection H as <- _. exists "". now rewrite append_nil_r.
Qed.

Lemma resync_extends (newTok : Token) (e : Position) (olds : list Token) :
  forall res sp com oldTok rest res' com',
    resync existingCode newTok e olds res sp com = Some (oldTok, rest, res', com') ->
    exists s, res' = res ++ s.
Proof.
  induction olds as [|t olds IH]; intros res sp com oldTok rest res' com' H; simpl in H.
  - injection H as _ _ <- _. exists "". now rewrite append_nil_r.
  - destruct (checkComment existingCode t res sp com) as [[r1 c1]|] eqn:E; [|discriminate].
    apply checkComment_extends in E. destruct E as (s1 & ->).
    destruct (TokenType_eqb (Type_ t) (Type_ newTok) || Is t TokenEOF).
    + injection H as _ _ <- _. eauto.
    + apply IH in H. destruct H as (s2 & ->). exists (s1 ++ s2). now rewrite append_assoc.
Qed.

Lemma emitToken_extends newTok res sp com res' :
  emitToken prettyText newTok res sp com = Some res' -> exists s, res' = res ++ s.
Proof.
  unfold emitToken. intros H.
  destruct (extractTokenText prettyText newTok) as [text|];
    [|destruct (if 0 <? strings.len com then _ else _); discriminate].
  destruct (0 <? strings.len com).
  - destruct (strings.Repeat " " _) as [padding|]; [|discriminate].
    injection H as <-. rewrite !append_assoc. eauto.
  - destruct (strings.Repeat " " _) as [pad|]; [|discriminate].
    injection H as <-. rewrite !append_assoc. eauto.
Qed.

Lemma step_extends (st : State) (f : Flow) :
  step existingCode prettyText st = Some f ->
  exists s, result (flowState f) = result st ++ s.
Proof.
  unfold step. intros H. destruct (pull st) as [newTok news].
  destruct (Is newTok TokenSpace).
  { destruct (extractTokenText prettyText newTok); [|discriminate].
    injection H as <-. exists "". simpl. now rewrite append_nil_r. }
  destruct (Is newTok TokenBraceOpen).
  { destruct (Next news) as [la news'].
    destruct (TokenType_eqb (Type_ la) TokenBraceClose); injection H as <-; simpl; eauto. }
  destruct (slices.Contains ignoredTokenTypes (Type_ newTok)).
  { destruct (extractTokenText prettyText newTok); [|discriminate].
    injection H as <-. simpl. rewrite append_assoc. eauto. }
  assert (Hsync : forall oldTok olds res com,
             (if negb (Is (oldToken st) TokenEOF)
              then resync existingCode newTok (inputEnd (oldTokens st))
                          (pending (oldTokens st)) (result st) (spaces st) (comment st)
              else Some (oldToken st, pending (oldTokens st), result st, comment st))
             = Some (oldTok, olds, res, com) ->
             exists s, res = result st ++ s).
  { intros oldTok olds res com E. destruct (negb (Is (oldToken st) TokenEOF)).
    - eapply resync_extends; eassumption.
    - injection E as _ _ <- _. exists "". now rewrite append_nil_r. }
  destruct (if negb (Is (oldToken st) TokenEOF) then _ else _)
    as [[[[oldTok olds] res] com]|]; [|discriminate].
  destruct (Hsync _ _ _ _ eq_refl) as (s1 & ->). clear Hsync.
  destruct (Is oldTok TokenEOF && Is newTok TokenEOF).
  - injection H as <-. simpl. rewrite append_assoc. eauto.
  - destruct (emitToken prettyText newTok (result st ++ s1) (spaces st) com) as [res'|] eqn:Ee;
      [|discriminate].
    injection H as <-. simpl. apply emitToken_extends in Ee. destruct Ee as (s2 & ->).
    rewrite append_assoc. eauto.
Qed.

Lemma loop_extends (fuel : nat) :
  forall st out,
    loop existingCode prettyText fuel st = Returned out ->
    exists s, out = result st ++ s.
Proof.
  induction fuel as [|fuel IH]; intros st out H; [discriminate|].
  simpl in H. destruct (step existingCode prettyText st) as [[st'|st']|] eqn:Es;
    [| |discriminate].
  - apply step_extends in Es. destruct Es as (s1 & Es). simpl in Es.
    apply IH in H. destruct H as (s2 & ->). rewrite Es, append_assoc. eauto.
  - injection H as <-. apply step_extends in Es. exact Es.
Qed.

End AppendOnly.

(** The result is append-only.  Every iteration of the merge leaves a
    result that begins with the result it found, and the string returned in
    the end begins with the result of every state the loop went through:
    nothing once written is taken back or changed. *)
Theorem result_append_only :
  (forall existingCode prettyText st f,
      step existingCode prettyText st = Some f ->
      exists s, result (flowState f) = result st ++ s)
  /\ (forall existingCode prettyText fuel st out,
         loop existingCode prettyText fuel st = Returned out ->
         exists s, out = result st ++ s).
Proof.
  split.
  - intros. eapply step_extends; eassumption.
  - intros. eapply loop_extends; eassumption.
Qed.

Lemma result_append_only_witness :
  exists s, "x = 1 // note" = result (stateAfter "x = 1 // note" "x = 1" 3) ++ s.
Proof.
  apply (proj2 result_append_only "x = 1 // note" "x = 1" 3%nat
           (stateAfter "x = 1 // note" "x = 1" 3) "x = 1 // note").
  vm_compute. reflexivity.
Defined.

(** ** Token ranges that lie in the texts: no panic *)

Lemma LastIndex_range (s : string) (c : ascii) :
  -1 <= strings.LastIndex s c < strings.len s.
Proof.
  unfold strings.len. induction s as [|a s IH]; [simpl; lia|].
  cbn [strings.LastIndex String.length].
  destruct (0 <=? strings.LastIndex s c) eqn:E.
  - apply Z.leb_le in E. lia.
  - destruct (Ascii.eqb a c); lia.
Qed.

Section NoPanic.

Variables existingCode prettyText : string.

Lemma emitToken_ok newTok res sp com :
  newTokenOK prettyText newTok = true ->
  Is newTok TokenEOF = false ->
  exists res', emitToken prettyText newTok res sp com = Some res'.
Proof.
  unfold newTokenOK, emitToken. intros H He. rewrite He in H. simpl in H.
  destruct (extractTokenText prettyText newTok) as [text|]; [|discriminate].
  unfold strings.Repeat. rewrite H.
  pose proof (LastIndex_range sp strings.newline) as Hr.
  destruct (0 <=? strings.len sp - (strings.LastIndex sp strings.newline + 1)) eqn:E;
    [|apply Z.leb_gt in E; lia].
  destruct (0 <? strings.len com); eauto.
Qed.

Lemma checkComment_ok t res sp com :
  oldTokenOK existingCode t = true ->
  exists r, checkComment existingCode t res sp com = Some r.
Proof.
  unfold oldTokenOK, checkComment. intros H.
  destruct (Is t TokenLineComment).
  - destruct (extractTokenText existingCode t) as [text|] eqn:Ex; [|discriminate].
    destruct (strings.index (existingCodeLines existingCode) (Line (StartPosition t) - 1))
      as [line|] eqn:El; [|discriminate].
    destruct (strings.slice line 0 (Column (StartPosition t))) as [before|] eqn:Eb;
      [|discriminate].
    apply index_some_range in El as Hrange.
    unfold lineComment, checkTrailing. rewrite El, Eb.
    set (isTrailing := 0 <? strings.len (strings.Trim before cutset)).
    set (oldLine := strings.Trim before cutset).
    assert (Hprev : exists c1, checkPreviousLine existingCode isTrailing oldLine t sp com
                               = Some c1).
    { unfold checkPreviousLine.
      destruct (negb isTrailing && (1 <? Line (StartPosition t))) eqn:E; [|eauto].
      apply andb_true_iff in E. destruct E as [_ E]. apply Z.ltb_lt in E.
      destruct (index_in_range (existingCodeLines existingCode) (Line (StartPosition t) - 2))
        as (prev & ->); [lia|].
      destruct (strings.len (strings.Trim prev cutset) =? 0); [|eauto].
      destruct (_ && _); eauto. }
    destruct Hprev as (c1 & ->). rewrite Ex.
    assert (Hnext : exists c2, checkNextLine existingCode isTrailing oldLine t (c1 ++ text)
                               = Some c2).
    { unfold checkNextLine.
      destruct (negb isTrailing && _) eqn:E; [|eauto].
      apply andb_true_iff in E. destruct E as [_ E]. apply Z.ltb_lt in E.
      destruct (index_in_range (existingCodeLines existingCode) (Line (StartPosition t)))
        as (next & ->); [lia|].
      destruct (strings.len (strings.Trim next cutset) =? 0); [|eauto].
      destruct (strings.len oldLine =? 0); eauto. }
    destruct Hnext as (c2 & ->). destruct isTrailing; eauto.
  - destruct (Is t TokenBlockCommentContent); [|eauto].
    unfold blockComment.
    destruct (extractTokenText existingCode t) as [text|]; [|discriminate].
    destruct (Line (StartPos t) <? Line (EndPos t)); eauto.
Qed.

Lemma resync_ok (newTok : Token) (e : Position) (olds : list Token) :
  forall res sp com,
    forallb (oldTokenOK existingCode) olds = true ->
    exists oldTok rest res' com',
      resync existingCode newTok e olds res sp com = Some (oldTok, rest, res', com')
      /\ forallb (oldTokenOK existingCode) rest = true.
Proof.
  induction olds as [|t olds IH]; intros res sp com H; simpl.
  - eexists _, _, _, _. split; reflexivity.
  - cbn [forallb] in H. apply andb_true_iff in H. destruct H as [Ht H].
    destruct (checkComment_ok t res sp com Ht) as ([r1 c1] & ->).
    destruct (TokenType_eqb (Type_ t) (Type_ newTok) || Is t TokenEOF).
    + eexists _, _, _, _. split; [reflexivity | exact H].
    + now apply IH.
Qed.

Lemma step_ok (st : State) :
  ranged existingCode prettyText st ->
  exists f, step existingCode prettyText st = Some f
            /\ match f with Continue st' => ranged existingCode prettyText st' | Break _ => True end.
Proof.
  unfold ranged. intros (Hnew & Hold).
  destruct (pull st) as [newTok news] eqn:Hp.
  assert (Hpulled : (Is newTok TokenEOF = true \/ newTokenOK prettyText newTok = true)
                    /\ forallb (newTokenOK prettyText) (pending news) = true).
  { unfold pull in Hp. destruct (negb (Is (newToken st) TokenEOF)) eqn:E.
    - unfold Next in Hp. destruct (pending (newTokens st)) as [|t rest] eqn:Ep.
      + injection Hp as <- <-. split; [now left | now rewrite Ep].
      + injection Hp as <- <-. cbn [forallb] in Hnew. apply andb_true_iff in Hnew.
        destruct Hnew as [Ht Hrest]. split; [now right | exact Hrest].
    - injection Hp as <- <-. apply negb_false_iff in E. split; [now left | exact Hnew]. }
  destruct Hpulled as (Hok & Hnews).
  assert (Hx : Is newTok TokenEOF = false ->
               exists text, extractTokenText prettyText newTok = Some text).
  { intros He. destruct Hok as [Hok|Hok]; [congruence|].
    unfold newTokenOK in Hok. rewrite He in Hok. simpl in Hok.
    destruct (extractTokenText prettyText newTok); [eauto | discriminate]. }
  unfold step. rewrite Hp.
  destruct (Is newTok TokenSpace) eqn:Es.
  { destruct Hx as (text & ->); [apply (Is_other _ _ _ Es); discriminate|].
    eexists. split; [reflexivity|]. simpl. auto. }
  destruct (Is newTok TokenBraceOpen) eqn:Eb.
  { unfold Cursor, Revert, Next. destruct (pending news) as [|t2 r2] eqn:Ep.
    - cbn. eexists. split; [reflexivity|]. simpl. rewrite Ep. auto.
    - cbn [forallb] in Hnews. apply andb_true_iff in Hnews. destruct Hnews as [H2 Hr2].
      destruct (TokenType_eqb (Type_ t2) TokenBraceClose);
        (eexists; split; [reflexivity|]); simpl; [auto|].
      rewrite Ep. cbn [forallb]. rewrite H2, Hr2. auto. }
  destruct (slices.Contains ignoredTokenTypes (Type_ newTok)) eqn:Ei.
  { destruct Hx as (text & ->).
    - destruct (Is newTok TokenEOF) eqn:He; [|reflexivity].
      apply Is_eq in He. rewrite He in Ei. discriminate.
    - eexists. split; [reflexivity|]. simpl. auto. }
  assert (Hsync : exists oldTok olds res com,
             (if negb (Is (oldToken st) TokenEOF)
              then resync existingCode newTok (inputEnd (oldTokens st))
                          (pending (oldTokens st)) (result st) (spaces st) (comment st)
              else Some (oldToken st, pending (oldTokens st), result st, comment st))
             = Some (oldTok, olds, res, com)
             /\ forallb (oldTokenOK existingCode) olds = true
             /\ (Is newTok TokenEOF = true -> Is oldTok TokenEOF = true)).
  { destruct (Is (oldToken st) TokenEOF) eqn:Eo; cbn [negb].
    - eexists _, _, _, _. split; [reflexivity|]. auto.
    - destruct (resync_ok newTok (inputEnd (oldTokens st)) _
                  (result st) (spaces st) (comment st) Hold)
        as (oldTok & rest & res' & com' & Hr & Hrest).
      eexists _, _, _, _. split; [exact Hr|]. split; [exact Hrest|].
      intros He. apply (resync_stops existingCode) in Hr. destruct Hr as [Hr|Hr]; [|exact Hr].
      apply Is_eq. apply Is_eq in He. congruence. }
  destruct Hsync as (oldTok & olds & res & com & -> & Holds & Heof).
  destruct (Is oldTok TokenEOF && Is newTok TokenEOF) eqn:Eboth.
  - eexists. split; [reflexivity | exact I].
  - assert (He : Is newTok TokenEOF = false).
    { destruct (Is newTok TokenEOF); [|reflexivity]. rewrite (Heof eq_refl) in Eboth.
      discriminate. }
    destruct Hok as [Hok|Hok]; [congruence|].
    destruct (emitToken_ok newTok res (spaces st) com Hok He) as (res' & ->).
    eexists. split; [reflexivity|]. simpl. auto.
Qed.

Lemma loop_ok (fuel : nat) :
  forall st, ranged existingCode prettyText st -> loop existingCode prettyText fuel st <> Panicked.
Proof.
  induction fuel as [|fuel IH]; intros st Hr; [discriminate|].
  simpl. destruct (step_ok st Hr) as (f & -> & Hf).
  destruct f as [st'|st']; [now apply IH | discriminate].
Qed.

Lemma merge_ok (oldStream newStream : TokenStream) :
  forallb (oldTokenOK existingCode) (pending oldStream) = true ->
  forallb (newTokenOK prettyText) (pending newStream) = true ->
  exists out, merge existingCode prettyText oldStream newStream = Returned out.
Proof.
  intros Hold Hnew.
  assert (H1 : merge existingCode prettyText oldStream newStream <> Panicked).
  { unfold merge. apply loop_ok. split; assumption. }
  assert (H2 : merge existingCode prettyText oldStream newStream <> OutOfFuel).
  { unfold merge. apply loop_terminates. simpl. lia. }
  destruct (merge existingCode prettyText oldStream newStream); [eauto | | ]; contradiction.
Qed.

End NoPanic.

(** [prettyCode] returns a string, it does not panic, whenever the lexer
    hands out tokens whose ranges lie in their text: for the rendered text,
    tokens that can be cut out of it and have a column that is not
    negative; for the original, comment tokens that can be cut out of it
    and, for line comments, a line and a column that exist in it. *)
Theorem prettyCode_returns :
  forall (Lex : string -> TokenStream) (Program : Type)
         (ParseProgram : string -> Program + string)
         (Prettier : Program -> Z -> string -> string)
         existingCode maxLineLength,
    let rendered := pretty Program ParseProgram Prettier existingCode maxLineLength in
    forallb (oldTokenOK existingCode) (pending (Lex existingCode)) = true ->
    forallb (newTokenOK rendered) (pending (Lex rendered)) = true ->
    exists out,
      prettyCode Lex Program ParseProgram Prettier existingCode maxLineLength = Returned out.
Proof.
  intros Lex Program ParseProgram Prettier existingCode maxLineLength rendered Hold Hnew.
  unfold prettyCode. fold rendered.
  destruct (strings.HasPrefix rendered "Parsing failed "); [eauto|].
  now apply merge_ok.
Qed.

Lemma prettyCode_returns_witness :
  exists out,
    prettyCodeRendering ("let x = f(" ++ strings.nl ++ "    1" ++ strings.nl ++ ")")
      ("let x = f(" ++ strings.nl ++ "    /* a */" ++ strings.nl
         ++ "    1 // one" ++ strings.nl ++ ")") 80
    = Returned out.
Proof.
  apply (prettyCode_returns Lex string
           (fun _ => inl ("let x = f(" ++ strings.nl ++ "    1" ++ strings.nl ++ ")"))
           (fun program _ _ => program)
           ("let x = f(" ++ strings.nl ++ "    /* a */" ++ strings.nl
              ++ "    1 // one" ++ strings.nl ++ ")") 80);
    vm_compute; reflexivity.
Defined.

(** ** The rendered tokens are all written *)

Section RenderedKept.

Variables existingCode prettyText : string.

Variable tok : Token.
Variable x : string.
Hypothesis tok_text : extractTokenText prettyText tok = Some x.
Hypothesis tok_code : Is tok TokenSpace = false.
Hypothesis tok_open : Is tok TokenBraceOpen = true -> x = "{".
Hypothesis tok_close : Is tok TokenBraceClose = true -> x = "}".

Lemma emitToken_writes res sp com res' :
  emitToken prettyText tok res sp com = Some res' -> Substring x res'.
Proof.
  unfold emitToken. rewrite tok_text. intros H.
  destruct (if 0 <? strings.len com then _ else _) as [r|]; [|discriminate].
  injection H as <-. auto with substring.
Qed.

Lemma step_writes (st : State) (f : Flow) :
  step existingCode prettyText st = Some f ->
  Pending tok x st ->
  match f with
  | Continue st' => Pending tok x st'
  | Break st' => Substring x (result st')
  end.
Proof.
  intros Hs (Hnew & Hneof & Hx).
  assert (Hold : Substring x (result st) -> Substring x (result (flowState f))).
  { intros H. destruct (step_extends _ _ _ _ Hs) as (s & ->). now apply Substring_app_l. }
  destruct (pending (newTokens st)) as [|t rest] eqn:Ep.
  { (* the new stream has run out *)
    assert (Hp : pull st = (eofToken (newTokens st), newTokens st)).
    { unfold pull, Next. now rewrite Hnew, Ep. }
    destruct (step_at_eof _ _ _ _ _ _ Hp eq_refl Hs) as (st' & ->).
    destruct Hx as [Hx|[]]. exact (Hold Hx). }
  cbn [noEOF forallb] in Hneof. apply andb_true_iff in Hneof. destruct Hneof as [Ht Hneof].
  apply negb_true_iff in Ht. fold (noEOF rest) in Hneof.
  assert (Hcont : forall st', f = Continue st' ->
            newToken st' = t ->
            noEOF (pending (newTokens st')) = true ->
            (In tok rest -> Substring x (result st') \/ In tok (pending (newTokens st'))) ->
            (t = tok -> Substring x (result st') \/ In tok (pending (newTokens st'))) ->
            Pending tok x st').
  { intros st' -> Hn Hne Hrest Hhead. split; [now rewrite Hn|]. split; [exact Hne|].
    destruct Hx as [Hx|[Hx|Hx]]; [left; exact (Hold Hx) | now apply Hhead | now apply Hrest]. }
  unfold step in Hs. rewrite (pull_cons st t rest Hnew Ep) in Hs.
  destruct (Is t TokenSpace) eqn:Es.
  { destruct (extractTokenText prettyText t); [|discriminate]. injection Hs as <-.
    apply Hcont; simpl; auto. intros ->. congruence. }
  destruct (Is t TokenBraceOpen) eqn:Eb.
  { unfold Cursor, Revert, Next in Hs. cbn [pending] in Hs.
    destruct rest as [|t2 r2].
    - cbn in Hs. injection Hs as <-. apply Hcont; simpl; auto.
      intros ->. left. rewrite (tok_open Eb). auto with substring.
    - destruct (TokenType_eqb (Type_ t2) TokenBraceClose) eqn:Ec; injection Hs as <-.
      + cbn [noEOF forallb] in Hneof. apply andb_true_iff in Hneof. destruct Hneof as [_ Hneof].
        apply Hcont; simpl; auto.
        * intros [->|Hin]; [|now right]. left. rewrite (tok_close Ec).
          apply Substring_app_r. exists "{", "". reflexivity.
        * intros ->. left. rewrite (tok_open Eb).
          apply Substring_app_r. exists "", "}". reflexivity.
      + apply Hcont; simpl; auto.
        intros ->. left. rewrite (tok_open Eb). auto with substring. }
  destruct (slices.Contains ignoredTokenTypes (Type_ t)).
  { destruct (extractTokenText prettyText t) as [text|] eqn:Ex; [|discriminate].
    injection Hs as <-. apply Hcont; simpl; auto.
    intros ->. left. rewrite tok_text in Ex. injection Ex as <-. auto with substring. }
  destruct (if negb (Is (oldToken st) TokenEOF) then _ else _)
    as [[[[oldTok olds] res] com]|]; [|discriminate].
  rewrite Ht, andb_false_r in Hs.
  destruct (emitToken prettyText t res (spaces st) com) as [res'|] eqn:Ee; [|discriminate].
  injection Hs as <-. apply Hcont; simpl; auto.
  intros ->. left. exact (emitToken_writes _ _ _ _ Ee).
Qed.

Lemma loop_writes (fuel : nat) :
  forall st out,
    Pending tok x st ->
    loop existingCode prettyText fuel st = Returned out ->
    Substring x out.
Proof.
  induction fuel as [|fuel IH]; intros st out Hp H; [discriminate|].
  simpl in H. destruct (step existingCode prettyText st) as [[st'|st']|] eqn:Es;
    [| |discriminate].
  - apply (IH st'); [|exact H]. exact (step_writes _ _ Es Hp).
  - injection H as <-. exact (step_writes _ _ Es Hp).
Qed.

End RenderedKept.

(** No token of the rendered text is lost.  When the merge returns, the
    text of every token of the rendered stream that is not whitespace
    stands in the returned string, the brace tokens reading [{] and [}];
    this holds whatever the original is, for a rendered stream that ends by
    running out. *)
Theorem rendered_tokens_kept :
  forall existingCode prettyText oldStream newStream out tok x,
    merge existingCode prettyText oldStream newStream = Returned out ->
    noEOF (pending newStream) = true ->
    In tok (pending newStream) ->
    Is tok TokenSpace = false ->
    extractTokenText prettyText tok = Some x ->
    (Is tok TokenBraceOpen = true -> x = "{") ->
    (Is tok TokenBraceClose = true -> x = "}") ->
    Substring x out.
Proof.
  intros existingCode prettyText oldStream newStream out tok x Hout Hneof Hin Hcode Hx Ho Hc.
  apply (loop_writes existingCode prettyText tok x Hx Hcode Ho Hc
           (S (List.length (pending newStream))) (initial oldStream newStream) out);
    [|exact Hout].
  split; [reflexivity|]. split; [exact Hneof | now right].
Qed.

Lemma rendered_tokens_kept_witness :
  Substring "note" "error // note: unexpected token note".
Proof.
  apply (rendered_tokens_kept "x = 1 // note" "error: unexpected token note"
           (Lex "x = 1 // note") (Lex "error: unexpected token note") _
           (mkToken TokenIdentifier (mkPosition 24 1 24) (mkPosition 27 1 27)) "note").
  - vm_compute. reflexivity.
  - vm_compute. reflexivity.
  - vm_compute. auto 20.
  - reflexivity.
  - vm_compute. reflexivity.
  - discriminate.
  - discriminate.
Defined.

(** ** A rendered token of a kind the original does not have *)

Lemma resync_exhausts existingCode (newTok : Token) (e : Position) (olds : list Token) :
  forall res sp com oldTok rest res' com',
    noEOF olds = true ->
    noKind (Type_ newTok) olds = true ->
    resync existingCode newTok e olds res sp com = Some (oldTok, rest, res', com') ->
    rest = [] /\ Is oldTok TokenEOF = true.
Proof.
  induction olds as [|t olds IH]; intros res sp com oldTok rest res' com' Hneof Hkind H;
    simpl in H.
  - injection H as <- <- _ _. auto.
  - cbn [noEOF noKind forallb] in Hneof, Hkind.
    apply andb_true_iff in Hneof. destruct Hneof as [Ht Hneof].
    apply andb_true_iff in Hkind. destruct Hkind as [Hk Hkind].
    apply negb_true_iff in Ht, Hk.
    destruct (checkComment existingCode t res sp com) as [[r1 c1]|]; [|discriminate].
    rewrite Hk, Ht in H. simpl in H. eapply IH; eassumption.
Qed.

(** Desynchronisation is for good.  A rendered token whose kind is not
    among the old tokens still to come uses up the old stream, so every
    comment left in the original is collected at that token; and once the
    old stream is at its end, no later iteration reads it again: the old
    stream and the old token stay as they are, and the comment buffer is
    only ever emptied. *)
Theorem old_stream_exhausted :
  (forall existingCode newTok e olds res sp com oldTok rest res' com',
      noEOF olds = true ->
      noKind (Type_ newTok) olds = true ->
      resync existingCode newTok e olds res sp com = Some (oldTok, rest, res', com') ->
      rest = [] /\ Is oldTok TokenEOF = true)
  /\ (forall existingCode prettyText st st',
         Is (oldToken st) TokenEOF = true ->
         step existingCode prettyText st = Some (Continue st') ->
         oldTokens st' = oldTokens st
         /\ oldToken st' = oldToken st
         /\ (comment st' = comment st \/ comment st' = "")).
Proof.
  split.
  - intros. eapply resync_exhausts; eassumption.
  - intros existingCode prettyText st st' Ho Hs. unfold step in Hs.
    destruct (pull st) as [newTok news].
    destruct (Is newTok TokenSpace).
    { destruct (extractTokenText prettyText newTok); [|discriminate].
      injection Hs as <-. simpl. auto. }
    destruct (Is newTok TokenBraceOpen).
    { destruct (Next news) as [la news'].
      destruct (TokenType_eqb (Type_ la) TokenBraceClose); injection Hs as <-; simpl; auto. }
    destruct (slices.Contains ignoredTokenTypes (Type_ newTok)).
    { destruct (extractTokenText prettyText newTok); [|discriminate].
      injection Hs as <-. simpl. auto. }
    rewrite Ho in Hs. cbn [negb] in Hs. cbv beta iota in Hs. rewrite Ho in Hs.
    destruct (true && Is newTok TokenEOF); [discriminate|].
    destruct (emitToken prettyText newTok (result st) (spaces st) (comment st));
      [|discriminate].
    injection Hs as <-. simpl. destruct (oldTokens st). auto.
Qed.

Lemma old_stream_exhausted_witness :
  oldToken (stateAfter "x" "f(y) = 1" 6) = oldToken (stateAfter "x" "f(y) = 1" 5)
  /\ pending (oldTokens (stateAfter "x" "f(y) = 1" 6)) = [].
Proof.
  destruct (proj2 old_stream_exhausted "x" "f(y) = 1"
              (stateAfter "x" "f(y) = 1" 5) (stateAfter "x" "f(y) = 1" 6)) as (H1 & H2 & _).
  - vm_compute. reflexivity.
  - vm_compute. reflexivity.
  - split; [exact H2|]. vm_compute. reflexivity.
Defined.

(** ** Where the token lands *)

Lemma dropLastEmpty_cons (l : string) (rest : list string) :
  rest <> [] -> indent.dropLastEmpty (l :: rest) = l :: indent.dropLastEmpty rest.
Proof. destruct rest; [contradiction | reflexivity]. Qed.

(** The lines of a text that ends in a line feed: the last of them ends in
    that line feed. *)
Lemma lines_end_nl (s : string) :
  exists front l,
    indent.dropLastEmpty (strings.SplitAfter (s ++ strings.nl) strings.newline)
    = (front ++ [(l ++ strings.nl)%string])%list.
Proof.
  induction s as [|a s IH].
  - exists [], "". reflexivity.
  - destruct IH as (front & l & IH). cbn [String.append strings.SplitAfter].
    destruct (Ascii.eqb a strings.newline).
    + rewrite dropLastEmpty_cons by apply SplitAfter_nonempty.
      rewrite IH. now exists (String a "" :: front), l.
    + destruct (strings.SplitAfter (s ++ strings.nl) strings.newline) as [|h t] eqn:E;
        [now apply SplitAfter_nonempty in E|].
      destruct t as [|y t'].
      * simpl in IH. destruct (String.eqb h "") eqn:Eh.
        -- destruct front; discriminate.
        -- destruct front as [|f front'].
           ++ injection IH as ->. exists [], (String a l). reflexivity.
           ++ destruct front'; discriminate.
      * rewrite dropLastEmpty_cons in IH by discriminate.
        rewrite dropLastEmpty_cons by discriminate.
        remember (indent.dropLastEmpty (y :: t')) as D eqn:ED. clear ED.
        destruct front as [|f front']; simpl in IH; injection IH as -> ->.
        -- exists [], (String a l). reflexivity.
        -- now exists (String a f :: front'), l.
Qed.

Lemma Join_ends_nl (sep : string) (front : list string) :
  forall e l, exists y,
    strings.Join (e :: (front ++ [(l ++ strings.nl)%string])%list) sep = y ++ strings.nl.
Proof.
  induction front as [|f front IH]; intros e l.
  - exists (e ++ sep ++ l). cbn. now rewrite !append_assoc.
  - destruct (IH f l) as (y & Hy).
    change (strings.Join (e :: ((f :: front) ++ [(l ++ strings.nl)%string])%list) sep)
      with (e ++ sep
              ++ strings.Join (f :: (front ++ [(l ++ strings.nl)%string])%list) sep).
    rewrite Hy. exists (e ++ sep ++ y). now rewrite !append_assoc.
Qed.

Lemma indent_ends_nl (padding s : string) :
  exists y, indent.String_ padding (s ++ strings.nl) = y ++ strings.nl.
Proof.
  unfold indent.String_.
  destruct (String.eqb padding "" || String.eqb (s ++ strings.nl) ""); [eauto|].
  destruct (lines_end_nl s) as (front & l & ->). apply Join_ends_nl.
Qed.

(** After pending comments that end in a line feed, as they do when the
    last of them is a leading line comment, the token is written at the
    start of a line after exactly as many spaces as its column in the
    rendered text: it keeps its rendered column. *)
Theorem token_keeps_column :
  forall prettyText newTok res sp com text,
    extractTokenText prettyText newTok = Some text ->
    0 <= Column (StartPosition newTok) ->
    exists y,
      emitToken prettyText newTok res sp (com ++ strings.nl)
      = Some (((res ++ y) ++ strings.nl)
                ++ strings.repeat " " (Z.to_nat (Column (StartPosition newTok))) ++ text).
Proof.
  intros prettyText newTok res sp com text Hx Hc. unfold emitToken, strings.Repeat.
  assert (Hlen : (0 <? strings.len (com ++ strings.nl)) = true).
  { unfold strings.len. rewrite length_append. simpl. apply Z.ltb_lt. lia. }
  rewrite Hlen, Hx. apply Z.leb_le in Hc. rewrite Hc.
  destruct (indent_ends_nl
              (strings.repeat " " (Z.to_nat (Column (StartPosition newTok)))) com)
    as (y & ->).
  exists (strings.TrimRight sp " " ++ y). now rewrite !append_assoc.
Qed.

Lemma token_keeps_column_witness :
  exists y,
    emitToken ("f(" ++ strings.nl ++ "    1)")
      (mkToken TokenDecimalIntegerLiteral (mkPosition 7 2 4) (mkPosition 7 2 4))
      "f(" (strings.nl ++ "    ") ("// one" ++ strings.nl)
    = Some ((("f(" ++ y) ++ strings.nl) ++ strings.repeat " " 4 ++ "1").
Proof.
  apply (token_keeps_column ("f(" ++ strings.nl ++ "    1)")
           (mkToken TokenDecimalIntegerLiteral (mkPosition 7 2 4) (mkPosition 7 2 4))
           "f(" (strings.nl ++ "    ") "// one" "1").
  - vm_compute. reflexivity.
  - vm_compute. discriminate.
Defined.

(** With no comment pending, spacing made of spaces and line feeds is
    written as the renderer laid it out: what line 310 trims off the end
    of the spacing buffer, line 320 puts back as the indent. *)
Theorem spacing_written_back :
  forall prettyText newTok res sp text,
    layoutOnly sp = true ->
    extractTokenText prettyText newTok = Some text ->
    emitToken prettyText newTok res sp "" = Some (res ++ sp ++ text).
Proof.
  intros. now apply emitToken_plain.
Qed.

Lemma spacing_written_back_witness :
  emitToken ("f(" ++ strings.nl ++ "    1)")
    (mkToken TokenDecimalIntegerLiteral (mkPosition 7 2 4) (mkPosition 7 2 4))
    "f(" (strings.nl ++ "    ") ""
  = Some ("f(" ++ (strings.nl ++ "    ") ++ "1").
Proof.
  apply (spacing_written_back ("f(" ++ strings.nl ++ "    1)")
           (mkToken TokenDecimalIntegerLiteral (mkPosition 7 2 4) (mkPosition 7 2 4))
           "f(" (strings.nl ++ "    ") "1").
  - vm_compute. reflexivity.
  - vm_compute. reflexivity.
Defined.

(** * The earlier revision *)

Lemma extract0_eq (text : string) (t : Token) :
  part_000.extractTokenText text t 0 = extractTokenText text t.
Proof. unfold part_000.extractTokenText, extractTokenText. now rewrite Z.add_0_r. Qed.

Lemma emit0_eq (prettyText : string) (t : Token) (res sp com : string) :
  part_000.emitToken prettyText t res sp com = emitToken prettyText t res sp com.
Proof. unfold part_000.emitToken, emitToken. now rewrite extract0_eq. Qed.

Section Earlier.

Variables existingCode prettyText : string.

Lemma resync0_stops (newTok : Token) (e : Position) (olds : list Token) :
  forall res com oldTok rest res' com',
    part_000.resync existingCode newTok e olds res com = Some (oldTok, rest, res', com') ->
    Type_ oldTok = Type_ newTok \/ Is oldTok TokenEOF = true.
Proof.
  induction olds as [|t olds IH]; intros res com oldTok rest res' com' H; simpl in H.
  - injection H as <- _ _ _. right. reflexivity.
  - destruct (part_000.checkComment existingCode t res com) as [[r c]|]; [|discriminate].
    destruct (TokenType_eqb (Type_ t) (Type_ newTok) || Is t TokenEOF) eqn:E.
    + injection H as <- _ _ _. apply orb_true_iff in E.
      destruct E as [E|E]; [left; now apply TokenType_eqb_eq | now right].
    + eapply IH; eassumption.
Qed.

Lemma step0_at_eof (st : State) (newTok : Token) (news : TokenStream) (f : Flow) :
  pull st = (newTok, news) ->
  Is newTok TokenEOF = true ->
  part_000.step existingCode prettyText st = Some f ->
  exists st', f = Break st'.
Proof.
  intros Hp He Hs. unfold part_000.step in Hs. rewrite Hp in Hs.
  rewrite (Is_other _ _ TokenSpace He) in Hs by discriminate.
  assert (Hc : slices.Contains part_000.ignoredTokenTypes (Type_ newTok) = false).
  { apply Is_eq in He. rewrite He. reflexivity. }
  rewrite Hc in Hs.
  destruct (Is (oldToken st) TokenEOF) eqn:Eo; cbn [negb] in Hs.
  - cbv beta iota in Hs. rewrite Eo, He in Hs. simpl in Hs. injection Hs as <-. eauto.
  - destruct (part_000.resync _ _ _ _ _ _) as [[[[oldTok olds] res] com]|] eqn:Er;
      [|discriminate].
    apply resync0_stops in Er.
    assert (Ho : Is oldTok TokenEOF = true).
    { destruct Er as [Er|Er]; [|exact Er]. apply Is_eq. apply Is_eq in He. congruence. }
    rewrite Ho, He in Hs. simpl in Hs. injection Hs as <-. eauto.
Qed.

Lemma step0_continue_advances (st st' : State) :
  part_000.step existingCode prettyText st = Some (Continue st') ->
  (List.length (pending (newTokens st')) < List.length (pending (newTokens st)))%nat.
Proof.
  intros Hs.
  destruct (pull st) as [newTok news] eqn:Hp.
  destruct (Is newTok TokenEOF) eqn:He.
  { destruct (step0_at_eof _ _ _ _ Hp He Hs) as (x & Hx). discriminate. }
  assert (Hn : (List.length (pending news) < List.length (pending (newTokens st)))%nat).
  { unfold pull in Hp. destruct (negb (Is (newToken st) TokenEOF)) eqn:E.
    - unfold Next in Hp. destruct (pending (newTokens st)) as [|t rest].
      + injection Hp as <- <-. discriminate.
      + injection Hp as <- <-. simpl. lia.
    - injection Hp as <- <-. apply negb_false_iff in E. congruence. }
  unfold part_000.step in Hs. rewrite Hp in Hs.
  destruct (Is newTok TokenSpace).
  { destruct (part_000.extractTokenText prettyText newTok 0); [|discriminate].
    injection Hs as <-. exact Hn. }
  destruct (slices.Contains part_000.ignoredTokenTypes (Type_ newTok)).
  { destruct (part_000.extractTokenText prettyText newTok 0); [|discriminate].
    injection Hs as <-. exact Hn. }
  destruct (if negb (Is (oldToken st) TokenEOF) then _ else _)
    as [[[[oldTok olds] res] com]|]; [|discriminate].
  destruct (Is oldTok TokenEOF && Is newTok TokenEOF); [discriminate|].
  destruct (part_000.emitToken prettyText newTok res (spaces st) com); [|discriminate].
  injection Hs as <-. exact Hn.
Qed.

Lemma loop0_terminates (fuel : nat) :
  forall st,
    (List.length (pending (newTokens st)) < fuel)%nat ->
    part_000.loop existingCode prettyText fuel st <> OutOfFuel.
Proof.
  induction fuel as [|fuel IH]; intros st Hlt; [lia|].
  simpl. destruct (part_000.step existingCode prettyText st) as [[st'|st']|] eqn:Hs;
    try discriminate.
  apply IH. apply step0_continue_advances in Hs. lia.
Qed.

(** *** An original without comments *)

Lemma checkComment0_other (t : Token) (res com : string) :
  isComment t = false -> part_000.checkComment existingCode t res com = Some (res, com).
Proof.
  unfold isComment, part_000.checkComment. intros ->. reflexivity.
Qed.

Lemma resync0_no_comments (newTok : Token) (e : Position) (olds : list Token) :
  forall res com,
    noComments olds = true ->
    exists oldTok rest,
      part_000.resync existingCode newTok e olds res com = Some (oldTok, rest, res, com)
      /\ noComments rest = true.
Proof.
  induction olds as [|t olds IH]; intros res com Hn; simpl.
  - eauto.
  - simpl in Hn. apply andb_true_iff in Hn. destruct Hn as [Ht Hn].
    apply negb_true_iff in Ht. rewrite (checkComment0_other _ _ _ Ht).
    destruct (TokenType_eqb (Type_ t) (Type_ newTok) || Is t TokenEOF); eauto.
Qed.

Lemma step0_end_comment_free (st : State) :
  pending (newTokens st) = [] ->
  noComments (pending (oldTokens st)) = true ->
  exists st', part_000.step existingCode prettyText st = Some (Break st')
              /\ result st' = result st ++ comment st.
Proof.
  intros Hnil Hold.
  destruct (pull st) as [newTok news] eqn:Hp.
  assert (He : Is newTok TokenEOF = true).
  { unfold pull in Hp. destruct (negb (Is (newToken st) TokenEOF)) eqn:E.
    - unfold Next in Hp. rewrite Hnil in Hp. injection Hp as <- _. reflexivity.
    - injection Hp as <- _. now apply negb_false_iff in E. }
  unfold part_000.step. rewrite Hp.
  rewrite (Is_other _ _ TokenSpace He) by discriminate.
  assert (Hc : slices.Contains part_000.ignoredTokenTypes (Type_ newTok) = false).
  { apply Is_eq in He. rewrite He. reflexivity. }
  rewrite Hc.
  destruct (Is (oldToken st) TokenEOF) eqn:Eo; cbn [negb].
  - cbv beta iota. rewrite Eo, He. simpl. eauto.
  - destruct (resync0_no_comments newTok (inputEnd (oldTokens st)) _
                (result st) (comment st) Hold) as (oldTok & rest & Hr & _).
    rewrite Hr. apply resync0_stops in Hr.
    assert (Ho : Is oldTok TokenEOF = true).
    { destruct Hr as [Hr|Hr]; [|exact Hr]. apply Is_eq. apply Is_eq in He. congruence. }
    rewrite Ho, He. simpl. eauto.
Qed.

Lemma loop0_comment_free (fuel : nat) :
  forall st toks xs,
    (List.length toks < fuel)%nat ->
    pending (newTokens st) = toks ->
    Is (newToken st) TokenEOF = false ->
    comment st = "" ->
    noComments (pending (oldTokens st)) = true ->
    noEOF toks = true ->
    texts prettyText toks = Some xs ->
    spacesLaidOut prettyText toks = true ->
    layoutOnly (spaces st) = true ->
    part_000.loop existingCode prettyText fuel st
    = Returned (result st ++ kept toks xs (spaces st)).
Proof.
  induction fuel as [|fuel IH];
    intros st toks xs Hfuel Hpend Hnew Hcom Hold Hneof Htexts Hlaid Hsp; [lia|].
  cbn [part_000.loop]. destruct toks as [|t rest].
  { destruct (step0_end_comment_free st Hpend Hold) as (st' & -> & ->). now rewrite Hcom. }
  apply texts_cons in Htexts. destruct Htexts as (x & xr & Hx & Hxr & ->).
  cbn [noEOF forallb] in Hneof. apply andb_true_iff in Hneof.
  destruct Hneof as [Hteof Hneof]. apply negb_true_iff in Hteof. fold (noEOF rest) in Hneof.
  cbn [spacesLaidOut] in Hlaid. rewrite Hx in Hlaid. apply andb_true_iff in Hlaid.
  destruct Hlaid as [Hshape Hlaid].
  simpl in Hfuel.
  unfold part_000.step. rewrite (pull_cons st t rest Hnew Hpend), extract0_eq, Hx. cbn [kept].
  destruct (Is t TokenSpace) eqn:Ets.
  { rewrite (IH _ rest xr); cbn [result spaces newTokens pending newToken comment oldTokens];
      try assumption; try reflexivity; try lia.
    unfold layoutOnly in *. now rewrite allBytes_app, Hsp, Hshape. }
  destruct (slices.Contains part_000.ignoredTokenTypes (Type_ t)) eqn:Eig.
  { rest_of_loop IH rest xr. now rewrite !append_assoc. }
  assert (Hsync : exists oldTok olds,
             (if negb (Is (oldToken st) TokenEOF)
              then part_000.resync existingCode t (inputEnd (oldTokens st))
                     (pending (oldTokens st)) (result st) (comment st)
              else Some (oldToken st, pending (oldTokens st), result st, comment st))
             = Some (oldTok, olds, result st, comment st)
             /\ noComments olds = true).
  { destruct (negb (Is (oldToken st) TokenEOF)).
    - apply resync0_no_comments. exact Hold.
    - eauto. }
  destruct Hsync as (oldTok & olds & -> & Holds).
  rewrite Hteof, andb_false_r, Hcom, emit0_eq.
  rewrite (emitToken_plain prettyText t (result st) (spaces st) x Hsp Hx).
  rest_of_loop IH rest xr.
  now rewrite !append_assoc.
Qed.

Lemma merge0_comment_free (oldStream newStream : TokenStream) (xs : list string) :
  noComments (pending oldStream) = true ->
  noEOF (pending newStream) = true ->
  texts prettyText (pending newStream) = Some xs ->
  spacesLaidOut prettyText (pending newStream) = true ->
  part_000.merge existingCode prettyText oldStream newStream
  = Returned (kept (pending newStream) xs "").
Proof.
  intros Hold Hneof Htexts Hlaid. unfold part_000.merge.
  rewrite (loop0_comment_free _ _ (pending newStream) xs); try assumption;
    try reflexivity; auto.
Qed.

End Earlier.

Lemma plainLayout_laidOut (text : string) (toks : list Token) :
  plainLayout text toks = true -> spacesLaidOut text toks = true.
Proof.
  induction toks as [|t rest IH]; [reflexivity|]. cbn [plainLayout spacesLaidOut].
  destruct (extractTokenText text t) as [x|]; [|discriminate].
  intros H. apply andb_true_iff in H. destruct H as [Hs Hr].
  rewrite (IH Hr), andb_true_r.
  destruct (Is t TokenSpace); [|reflexivity].
  apply andb_true_iff in Hs. tauto.
Qed.

(** The merge of the earlier revision ends as well: every iteration that
    goes on leaves strictly fewer new tokens, and the merge ends, with a
    string or with a panic, within one iteration more than there are new
    tokens. *)
Theorem earlier_merge_terminates :
  (forall existingCode prettyText st st',
      part_000.step existingCode prettyText st = Some (Continue st') ->
      (List.length (pending (newTokens st')) < List.length (pending (newTokens st)))%nat)
  /\ (forall existingCode prettyText oldStream newStream,
         part_000.merge existingCode prettyText oldStream newStream <> OutOfFuel).
Proof.
  split.
  - intros. eapply step0_continue_advances; eassumption.
  - intros. unfold part_000.merge. apply loop0_terminates. simpl. lia.
Qed.

(** In the earlier revision, where the braces are copied like the
    parentheses, an original without comments gets the rendered text back
    unchanged, braces and the whitespace before them included, when the
    rendered text is covered by its tokens, has its whitespace made of
    spaces and line feeds and does not end in whitespace. *)
Theorem earlier_comment_free_passthrough :
  forall existingCode prettyText oldStream newStream,
    noComments (pending oldStream) = true ->
    noEOF (pending newStream) = true ->
    tiles prettyText (pending newStream) = true ->
    spacesLaidOut prettyText (pending newStream) = true ->
    endsInCode (pending newStream) = true ->
    part_000.merge existingCode prettyText oldStream newStream = Returned prettyText.
Proof.
  intros existingCode prettyText oldStream newStream Hold Hneof Htiles Hlaid Hend.
  destruct (tiles_concat _ _ Htiles) as (xs & Hxs & Hcat).
  rewrite (merge0_comment_free existingCode prettyText _ _ xs Hold Hneof Hxs Hlaid).
  rewrite kept_all; [now rewrite Hcat | now apply texts_length in Hxs | exact Hend | reflexivity].
Qed.

Lemma earlier_comment_free_passthrough_witness :
  part_000.reconcile "pub fun f(){return}"
    ("pub fun f() {" ++ strings.nl ++ "    return" ++ strings.nl ++ "}")
  = Returned ("pub fun f() {" ++ strings.nl ++ "    return" ++ strings.nl ++ "}").
Proof.
  apply (earlier_comment_free_passthrough "pub fun f(){return}"
           ("pub fun f() {" ++ strings.nl ++ "    return" ++ strings.nl ++ "}"));
    vm_compute; reflexivity.
Defined.

(** The two revisions agree on an original without comments and a rendered
    text in plain layout (whitespace of spaces and line feeds, braces that
    read [{] and [}], no open brace directly after whitespace): both return
    the texts of the rendered tokens without the whitespace that no token
    follows. *)
Theorem revisions_agree :
  forall existingCode prettyText oldStream newStream xs,
    noComments (pending oldStream) = true ->
    noEOF (pending newStream) = true ->
    texts prettyText (pending newStream) = Some xs ->
    plainLayout prettyText (pending newStream) = true ->
    part_000.merge existingCode prettyText oldStream newStream
    = merge existingCode prettyText oldStream newStream
    /\ merge existingCode prettyText oldStream newStream
       = Returned (kept (pending newStream) xs "").
Proof.
  intros existingCode prettyText oldStream newStream xs Hold Hneof Hxs Hplain.
  rewrite (merge_comment_free existingCode prettyText _ _ xs Hold Hneof Hxs Hplain).
  split; [|reflexivity].
  apply merge0_comment_free; try assumption. now apply plainLayout_laidOut.
Qed.

Lemma revisions_agree_witness :
  part_000.reconcile "f(a,[{}])" ("f(a, [{}])" ++ strings.nl)
  = reconcile "f(a,[{}])" ("f(a, [{}])" ++ strings.nl)
  /\ reconcile "f(a,[{}])" ("f(a, [{}])" ++ strings.nl) = Returned "f(a, [{}])".
Proof.
  apply (revisions_agree "f(a,[{}])" ("f(a, [{}])" ++ strings.nl)
           (Lex "f(a,[{}])") (Lex ("f(a, [{}])" ++ strings.nl))
           ["f"; "("; "a"; ","; " "; "["; "{"; "}"; "]"; ")"; strings.nl]);
    vm_compute; reflexivity.
Defined.

(** ** The line comment that ends the original *)

Section FinalLineComment.

Variables existingCode prettyText : string.

Variable tok : Token.
Hypothesis tok_line : Is tok TokenLineComment = true.
Hypothesis tok_last : strings.len existingCode < Offset (EndPos tok) + 2.

Lemma checkComment0_panics (res com : string) :
  part_000.checkComment existingCode tok res com = None.
Proof.
  unfold part_000.checkComment, part_000.addComment. rewrite tok_line. cbn [orb].
  assert (H : part_000.extractTokenText existingCode tok 1 = None).
  { unfold part_000.extractTokenText. apply slice_none. lia. }
  now rewrite H.
Qed.

Lemma resync0_meets (newTok : Token) (e : Position) (olds : list Token) :
  forall res com oldTok rest res' com',
    noEOF olds = true ->
    In tok olds ->
    part_000.resync existingCode newTok e olds res com = Some (oldTok, rest, res', com') ->
    noEOF rest = true /\ In tok rest /\ Is oldTok TokenEOF = false.
Proof.
  induction olds as [|t olds IH]; intros res com oldTok rest res' com' Hneof Hin H;
    [contradiction|].
  simpl in H. cbn [noEOF forallb] in Hneof. apply andb_true_iff in Hneof.
  destruct Hneof as [Ht Hneof]. apply negb_true_iff in Ht.
  destruct Hin as [Heq|Hin].
  - subst t. rewrite checkComment0_panics in H. discriminate.
  - destruct (part_000.checkComment existingCode t res com) as [[r1 c1]|]; [|discriminate].
    rewrite Ht, orb_false_r in H.
    destruct (TokenType_eqb (Type_ t) (Type_ newTok)).
    + injection H as <- <- _ _. auto.
    + eapply IH; eassumption.
Qed.

Lemma step0_meets (st : State) (f : Flow) :
  Ahead tok st ->
  part_000.step existingCode prettyText st = Some f ->
  exists st', f = Continue st' /\ Ahead tok st'.
Proof.
  unfold Ahead, part_000.step. intros (Hneof & Hin & Ho) H.
  destruct (pull st) as [newTok news].
  destruct (Is newTok TokenSpace).
  { destruct (part_000.extractTokenText prettyText newTok 0); [|discriminate].
    injection H as <-. eexists. split; [reflexivity|]. simpl. auto. }
  destruct (slices.Contains part_000.ignoredTokenTypes (Type_ newTok)).
  { destruct (part_000.extractTokenText prettyText newTok 0); [|discriminate].
    injection H as <-. eexists. split; [reflexivity|]. simpl. auto. }
  rewrite Ho in H. cbn [negb] in H.
  destruct (part_000.resync _ _ _ _ _ _) as [[[[oldTok olds] res] com]|] eqn:Er;
    [|discriminate].
  destruct (resync0_meets _ _ _ _ _ _ _ _ _ Hneof Hin Er) as (Hn & Hi & He).
  rewrite He in H. cbn [andb] in H.
  destruct (part_000.emitToken prettyText newTok res (spaces st) com); [|discriminate].
  injection H as <-. eexists. split; [reflexivity|]. simpl. auto.
Qed.

Lemma loop0_meets (fuel : nat) :
  forall st out,
    Ahead tok st -> part_000.loop existingCode prettyText fuel st <> Returned out.
Proof.
  induction fuel as [|fuel IH]; intros st out Ha; [discriminate|].
  simpl. destruct (part_000.step existingCode prettyText st) as [f|] eqn:Es; [|discriminate].
  destruct (step0_meets st f Ha Es) as (st' & -> & Ha'). now apply IH.
Qed.

End FinalLineComment.

(** The earlier revision reads a line comment with one byte more than its
    token (the line feed after it).  When a line comment ends the original,
    with no line feed after it, that byte is past the text: the merge
    panics, whatever the rendered text is. *)
Theorem earlier_panics_on_final_line_comment :
  forall existingCode prettyText oldStream newStream tok,
    noEOF (pending oldStream) = true ->
    In tok (pending oldStream) ->
    Is tok TokenLineComment = true ->
    strings.len existingCode < Offset (EndPos tok) + 2 ->
    part_000.merge existingCode prettyText oldStream newStream = Panicked.
Proof.
  intros existingCode prettyText oldStream newStream tok Hneof Hin Hline Hlast.
  assert (H1 : part_000.merge existingCode prettyText oldStream newStream <> OutOfFuel).
  { unfold part_000.merge. apply loop0_terminates. simpl. lia. }
  assert (H2 : forall out,
             part_000.merge existingCode prettyText oldStream newStream <> Returned out).
  { intros out. unfold part_000.merge. apply (loop0_meets existingCode prettyText tok Hline Hlast).
    split; [exact Hneof|]. split; [exact Hin | reflexivity]. }
  destruct (part_000.merge existingCode prettyText oldStream newStream) as [out| |];
    [now contradiction (H2 out) | reflexivity | contradiction].
Qed.

Lemma earlier_panics_on_final_line_comment_witness :
  part_000.reconcile "x = 1 // note" "x = 1" = Panicked
  /\ reconcile "x = 1 // note" "x = 1" = Returned "x = 1 // note".
Proof.
  split; [|vm_compute; reflexivity].
  apply (earlier_panics_on_final_line_comment "x = 1 // note" "x = 1"
           (Lex "x = 1 // note") (Lex "x = 1")
           (mkToken TokenLineComment (mkPosition 6 1 6) (mkPosition 12 1 12)));
    vm_compute; auto 20.
Defined.

(** ** A comment indented with tabs *)

Lemma Trim_spaces_pos (before : string) :
  spacesOnly before = false -> (0 <? strings.len (strings.Trim before " ")) = true.
Proof.
  intros H. rewrite len_pos. apply negb_true_iff. apply String.eqb_neq.
  intros E. apply Trim_nil_iff in E. unfold spacesOnly in H. congruence.
Qed.

(** The two revisions trim the text before a comment with different
    cutsets.  A line comment with nothing but spaces and tabs before it on
    its line, a tab among them, is a leading comment for [main.go], which
    leaves the result as it is, and a trailing comment for the earlier
    revision, which writes it at once after one space. *)
Theorem tab_indented_comment :
  forall existingCode tok line before text text1 res sp com,
    Is tok TokenLineComment = true ->
    strings.index (existingCodeLines existingCode) (Line (StartPosition tok) - 1) = Some line ->
    strings.slice line 0 (Column (StartPosition tok)) = Some before ->
    blankLine before = true ->
    spacesOnly before = false ->
    extractTokenText existingCode tok = Some text ->
    part_000.extractTokenText existingCode tok 1 = Some text1 ->
    (exists com', checkComment existingCode tok res sp com = Some (res, com'))
    /\ part_000.checkComment existingCode tok res com
       = Some (res ++ " " ++ com ++ text1, "").
Proof.
  intros existingCode tok line before text text1 res sp com Hk Hl Hb Hblank Htab Hx Hx1.
  split.
  - assert (Hok : oldTokenOK existingCode tok = true).
    { unfold oldTokenOK. now rewrite Hk, Hx, Hl, Hb. }
    destruct (checkComment_ok existingCode tok res sp com Hok) as ([r c] & H).
    rewrite H. unfold checkComment, lineComment in H. rewrite Hk in H.
    rewrite (checkTrailing_spec existingCode tok line before Hl Hb), Hblank in H.
    cbn [negb] in H.
    destruct (checkPreviousLine existingCode false _ tok sp com); [|discriminate].
    rewrite Hx in H.
    destruct (checkNextLine existingCode false _ tok _); [|discriminate].
    injection H as <- <-. eauto.
  - unfold part_000.checkComment, part_000.addComment. rewrite Hk, Hx1. cbn [orb].
    fold (existingCodeLines existingCode). rewrite Hl, Hb, (Trim_spaces_pos before Htab).
    reflexivity.
Qed.

Lemma tab_indented_comment_witness :
  (exists com',
      checkComment (String strings.tab "// c" ++ strings.nl ++ "x")
        (mkToken TokenLineComment (mkPosition 1 1 1) (mkPosition 4 1 4)) "" "" ""
      = Some ("", com'))
  /\ part_000.checkComment (String strings.tab "// c" ++ strings.nl ++ "x")
       (mkToken TokenLineComment (mkPosition 1 1 1) (mkPosition 4 1 4)) "" ""
     = Some (" // c" ++ strings.nl, "").
Proof.
  apply (tab_indented_comment (String strings.tab "// c" ++ strings.nl ++ "x")
           (mkToken TokenLineComment (mkPosition 1 1 1) (mkPosition 4 1 4))
           (String strings.tab "// c") (String strings.tab "") "// c"
           ("// c" ++ strings.nl) "" "" "");
    vm_compute; reflexivity.
Defined.

(** * The original text is read for its comments only *)

Lemma resync_text_free (e1 e2 : string) (newTok : Token) (e : Position) (olds : list Token) :
  forall res sp com,
    noComments olds = true ->
    resync e1 newTok e olds res sp com = resync e2 newTok e olds res sp com.
Proof.
  induction olds as [|t olds IH]; intros res sp com Hn; simpl; [reflexivity|].
  simpl in Hn. apply andb_true_iff in Hn. destruct Hn as [Ht Hn].
  apply negb_true_iff in Ht. rewrite !(checkComment_other _ _ _ _ _ Ht).
  destruct (TokenType_eqb (Type_ t) (Type_ newTok) || Is t TokenEOF); [reflexivity|].
  now apply IH.
Qed.

Lemma step_text_free (e1 e2 prettyText : string) (st : State) :
  noComments (pending (oldTokens st)) = true ->
  step e1 prettyText st = step e2 prettyText st
  /\ forall st', step e1 prettyText st = Some (Continue st') ->
                 noComments (pending (oldTokens st')) = true.
Proof.
  intros Hn. unfold step. destruct (pull st) as [newTok news].
  destruct (Is newTok TokenSpace).
  { split; [reflexivity|]. intros st' H.
    destruct (extractTokenText prettyText newTok); [|discriminate]. now injection H as <-. }
  destruct (Is newTok TokenBraceOpen).
  { split; [reflexivity|]. intros st' H. destruct (Next news) as [la news'].
    destruct (TokenType_eqb (Type_ la) TokenBraceClose); now injection H as <-. }
  destruct (slices.Contains ignoredTokenTypes (Type_ newTok)).
  { split; [reflexivity|]. intros st' H.
    destruct (extractTokenText prettyText newTok); [|discriminate]. now injection H as <-. }
  rewrite (resync_text_free e1 e2 newTok _ _ (result st) (spaces st) (comment st) Hn).
  split; [reflexivity|]. intros st' H.
  assert (Hsync : forall oldTok olds res com,
             (if negb (Is (oldToken st) TokenEOF)
              then resync e2 newTok (inputEnd (oldTokens st)) (pending (oldTokens st))
                          (result st) (spaces st) (comment st)
              else Some (oldToken st, pending (oldTokens st), result st, comment st))
             = Some (oldTok, olds, res, com) -> noComments olds = true).
  { intros oldTok olds res com E. destruct (negb (Is (oldToken st) TokenEOF)).
    - destruct (resync_no_comments e2 newTok (inputEnd (oldTokens st)) _
                  (result st) (spaces st) (comment st) Hn) as (o & r & Hr & Hnr).
      rewrite Hr in E. now injection E as _ <- _ _.
    - now injection E as _ <- _ _. }
  destruct (if negb (Is (oldToken st) TokenEOF) then _ else _)
    as [[[[oldTok olds] res] com]|]; [|discriminate].
  specialize (Hsync _ _ _ _ eq_refl).
  destruct (Is oldTok TokenEOF && Is newTok TokenEOF); [discriminate|].
  destruct (emitToken prettyText newTok res (spaces st) com); [|discriminate].
  now injection H as <-.
Qed.

Lemma loop_text_free (e1 e2 prettyText : string) (fuel : nat) :
  forall st,
    noComments (pending (oldTokens st)) = true ->
    loop e1 prettyText fuel st = loop e2 prettyText fuel st.
Proof.
  induction fuel as [|fuel IH]; intros st Hn; [reflexivity|].
  simpl. destruct (step_text_free e1 e2 prettyText st Hn) as (<- & Hnext).
  destruct (step e1 prettyText st) as [[st'|st']|]; try reflexivity.
  apply IH. now apply Hnext.
Qed.

(** When the old stream holds no comment token, the merge does not read
    the original text at all: with any other text in its place, and
    whatever the rendered text and its tokens are, the outcome is the
    same, panics included. *)
Theorem original_read_for_comments_only :
  forall existingCode existingCode' prettyText oldStream newStream,
    noComments (pending oldStream) = true ->
    merge existingCode prettyText oldStream newStream
    = merge existingCode' prettyText oldStream newStream.
Proof.
  intros. unfold merge. now apply loop_text_free.
Qed.

Lemma original_read_for_comments_only_witness :
  merge "x=1" "x = 1" (Lex "x=1") (Lex "x = 1") = merge "" "x = 1" (Lex "x=1") (Lex "x = 1").
Proof.
  apply (original_read_for_comments_only "x=1" "" "x = 1" (Lex "x=1") (Lex "x = 1")).
  vm_compute. reflexivity.
Defined.
